(** * eatbitz3D: the equirectangular test-frame renderer and the
      segmentation endpoint, embedded from the Python sources.

    Sources:
    - [ios_kiosk_app/generate_test_360_video.py]  ([generate_frame])
    - [ios_kiosk_app/generate_true_360.py]        ([generate_true_equirectangular])
    - [remove_bg_pipeline/segment_api.py]         ([segment_objects_internal], [segment])

    Number model.  Python [int] is [Z].  A [float64] is modelled as the
    rational it denotes, in [Q], and arithmetic is exact: the rounding of
    intermediate results, infinities and NaN are not modelled, nor are the
    exceptions Python raises when a number leaves the range of a double.
    [np.pi] is the double nearest to pi, a dyadic rational, and is used
    with that exact value; decimal literals such as [0.015] and [0.7]
    stand for their decimal value.  A [uint8] is a [Z] with its
    wrap-around modulo 256 written out at every store. *)

From Stdlib Require Import ZArith QArith Qround Qabs List Bool Lia Lqa String Ascii DecimalString.
From Stdlib Require Import DecimalPos DecimalZ.
From stdpp Require Import gmap strings.
Import ListNotations.

Local Open Scope Z_scope.

(** ** Python results: a value or a raised exception *)

Inductive Exn : Type :=
| ZeroDivisionError
| ValueError
| IndexError
| AttributeError
| OtherError (msg : string).

Inductive Result (A : Type) : Type :=
| Ok (a : A)
| Raise (e : Exn).
Arguments Ok {A} a.
Arguments Raise {A} e.

#[global] Instance result_ret : MRet Result := fun A a => Ok a.

#[global] Instance result_bind : MBind Result := fun A B k r =>
  match r with
  | Ok a => k a
  | Raise e => Raise e
  end.

(** ** NumPy arithmetic on exact rationals *)

Module Np.

Local Open Scope Q_scope.

(** [np.pi = 0x400921FB54442D18 = 884279719003555 / 2^48]. *)
Definition pi : Q := 884279719003555 # 281474976710656.

(** [x < y] on floats, as a boolean. *)
Definition ltb (x y : Q) : bool := negb (Qle_bool y x).

(** [x == y] on floats, as a boolean. *)
Definition eqb (x y : Q) : bool := Qeq_bool x y.

(** [x // m]: floor division; the result is a float. *)
Definition floor_divide (x m : Q) : Q := inject_Z (Qfloor (x / m)).

(** [x % m] for a divisor other than zero: NumPy's remainder, which takes
    the sign of the divisor. *)
Definition mod_ (x m : Q) : Q := x - m * inject_Z (Qfloor (x / m)).

(** [np.abs]. *)
Definition abs (x : Q) : Q := Qabs x.

(** [np.deg2rad(d)] is [d * (pi / 180)]. *)
Definition deg2rad (d : Q) : Q := d * (pi / 180).

(** Truncation toward zero: Python's [int(x)] on a float, and the first
    step of [.astype(np.uint8)]. *)
Definition trunc (x : Q) : Z := Z.quot (Qnum x) (Zpos (Qden x)).

(** [.astype(np.uint8)] of a float: truncate, then keep the low byte. *)
Definition astype_uint8 (x : Q) : Z := (trunc x mod 256)%Z.

(** [np.linspace(start, stop, num)], with [endpoint=True], for [0 <= num]:
    [arange(num) * step + start] with [step = (stop - start) / (num - 1)],
    the last sample overwritten by [stop]; for [num = 1] the single
    sample is [0 * (stop - start) + start]. *)
Definition linspace_at (start stop : Q) (num : Z) (i : Z) : Q :=
  let div := (num - 1)%Z in
  if (0 <? div)%Z then
    if (i =? div)%Z then stop
    else inject_Z i * ((stop - start) / inject_Z div) + start
  else inject_Z i * (stop - start) + start.

(** [range(n)] as a list of Python ints. *)
Definition zrange (n : Z) : list Z := List.map Z.of_nat (List.seq 0 (Z.to_nat n)).

Definition linspace (start stop : Q) (num : Z) : Result (list Q) :=
  if (num <? 0)%Z then Raise ValueError
  else Ok (List.map (linspace_at start stop num) (zrange num)).

End Np.

(** ** Two-dimensional arrays, stored row by row *)

Abbreviation Array2 A := (list (list A)).

(** [a[j, i]], when the index is inside the array. *)
Definition at2 {A} (a : Array2 A) (j i : nat) : option A :=
  row ← a !! j; row !! i.

(** An elementwise operation on one array, and on two arrays of one shape. *)
Definition amap {A B} (f : A -> B) (a : Array2 A) : Array2 B :=
  List.map (List.map f) a.

Definition amap2 {A B C} (f : A -> B -> C) (a : Array2 A) (b : Array2 B) : Array2 C :=
  zip_with (zip_with f) a b.

(** [np.meshgrid(x, y)]: both results have [len(y)] rows and [len(x)]
    columns; the first repeats [x] in every row, the second holds [y[j]]
    all along row [j]. *)
Definition meshgrid (x y : list Q) : Array2 Q * Array2 Q :=
  (List.map (fun _ => x) y, List.map (fun yj => List.map (fun _ => yj) x) y).

(** An RGB pixel of a [uint8] array of shape [(height, width, 3)]. *)
Abbreviation rgb := (Z * Z * Z)%type.

Definition white : rgb := (255, 255, 255).

(** An RGBA pixel. *)
Abbreviation rgba := (Z * Z * Z * Z)%type.

(** [np.zeros((height, width, 3), dtype=np.uint8)]. *)
Definition zeros (height width : Z) : Array2 rgb :=
  replicate (Z.to_nat height) (replicate (Z.to_nat width) (0, 0, 0)).

(** [img_data[:,:,0] = v], [img_data[:,:,1] = v], [img_data[:,:,2] = c]:
    the stored value is converted to [uint8]. *)
Definition set_red (img : Array2 rgb) (v : Array2 Q) : Array2 rgb :=
  amap2 (fun '(_, g, b) x => (Np.astype_uint8 x, g, b)) img v.

Definition set_green (img : Array2 rgb) (v : Array2 Q) : Array2 rgb :=
  amap2 (fun '(r, _, b) x => (r, Np.astype_uint8 x, b)) img v.

Definition set_blue (img : Array2 rgb) (c : Z) : Array2 rgb :=
  amap (fun '(r, g, _) => (r, g, c mod 256)) img.

(** [(img_data[m] * k).astype(np.uint8)] on one selected pixel: the three
    channels are promoted to floats, scaled, and converted back. *)
Definition scale_rgb (k : Q) (p : rgb) : rgb :=
  let '(r, g, b) := p in
  (Np.astype_uint8 (inject_Z r * k),
   Np.astype_uint8 (inject_Z g * k),
   Np.astype_uint8 (inject_Z b * k)).

(** [img_data[m] = f(img_data[m])]: the pixels selected by the boolean
    mask [m] are replaced, the others are kept. *)
Definition update_where (m : Array2 bool) (f : rgb -> rgb) (img : Array2 rgb) : Array2 rgb :=
  amap2 (fun (sel : bool) p => if sel then f p else p) m img.

(** ** Python text formatting and Pillow pixel operations *)

(** Text for a Python int, as [str] and f-strings print it. *)
Definition str_of_int (n : Z) : string :=
  DecimalString.NilZero.string_of_int (Z.to_int n).

(** [f"{x:.2f}"]: two decimals, rounded to nearest.  For [x = n / 30] with
    [n] an int, [100 * x] is never halfway between two integers. *)
Definition format_2f (x : Q) : string :=
  let n := Qfloor (Qabs x * 100 + (1 # 2)) in
  let frac := (n mod 100)%Z in
  ((if Np.ltb x 0 then "-" else "") +:+ str_of_int (n / 100)%Z +:+ "." +:+
   (if (frac <? 10)%Z then "0" else "") +:+ str_of_int frac)%string.

(** The degree sign, as its two UTF-8 bytes. *)
Definition degree : string :=
  String (ascii_of_nat 194) (String (ascii_of_nat 176) EmptyString).

(** [range(start, stop, step)] for a positive step. *)
Definition range_step (start stop step : Z) : list Z :=
  List.map (fun k => (start + k * step)%Z) (Np.zrange ((stop - start + step - 1) / step)%Z).

(** Pillow's 8-bit blend of the pixel value [in1] with the ink [in2] under
    the coverage [mask]: [DIV255(in1 * (255 - mask) + in2 * mask)]. *)
Definition div255 (a : Z) : Z :=
  let tmp := (a + 128)%Z in
  Z.shiftr (Z.shiftr tmp 8 + tmp) 8.

Definition blend8 (mask in1 in2 : Z) : Z :=
  div255 (in1 * (255 - mask) + in2 * mask)%Z.

Definition blend_rgb (mask : Z) (ink p : rgb) : rgb :=
  let '(r, g, b) := p in
  let '(ir, ig, ib) := ink in
  (blend8 mask r ir, blend8 mask g ig, blend8 mask b ib).

(** One pixel of a drawing operation: positions outside the image are
    clipped. *)
Definition put (img : Array2 rgb) (x y : Z) (f : rgb -> rgb) : Array2 rgb :=
  if ((0 <=? x) && (0 <=? y))%Z
  then alter (alter f (Z.to_nat x)) (Z.to_nat y) img
  else img.

(** ** [generate_frame]: the array composite (lines 9 to 43) *)

Module Frame.

Local Open Scope Q_scope.

(** [lon_offset = (frame_num / total_frames) * 2 * np.pi]; the division is
    Python's true division of two ints. *)
Definition lon_offset (frame_num total_frames : Z) : Result Q :=
  if (total_frames =? 0)%Z then Raise ZeroDivisionError
  else Ok (inject_Z frame_num / inject_Z total_frames * 2 * Np.pi).

(** [(lon + lon_offset + np.pi) % (2 * np.pi) - np.pi] for one element. *)
Definition lon_moved_of (offset lon : Q) : Q :=
  Np.mod_ (lon + offset + Np.pi) (2 * Np.pi) - Np.pi.

Definition grid_spacing : Q := Np.deg2rad 30.

Definition tolerance : Q := 15 # 1000.

(** [np.abs(v % grid_spacing) < 0.015] for one element. *)
Definition on_grid (v : Q) : bool :=
  Np.ltb (Np.abs (Np.mod_ v grid_spacing)) tolerance.

(** [(lon_moved // grid_spacing) % 2 == (lat // grid_spacing) % 2]. *)
Definition checker_of (lon_moved lat : Q) : bool :=
  Np.eqb (Np.mod_ (Np.floor_divide lon_moved grid_spacing) 2)
         (Np.mod_ (Np.floor_divide lat grid_spacing) 2).

Definition red_of (lon_moved : Q) : Q :=
  (lon_moved + Np.pi) / (2 * Np.pi) * 150 + 50.

Definition green_of (lat : Q) : Q :=
  (lat + Np.pi / 2) / Np.pi * 150 + 50.

(** The intermediate arrays of one call, under the names of the source. *)
Record Arrays : Type := {
  lon : Array2 Q;
  lat : Array2 Q;
  lon_moved : Array2 Q;
  lon_grid : Array2 bool;
  lat_grid : Array2 bool;
  checker : Array2 bool;
  base : Array2 rgb;        (* [img_data] after line 36 *)
  shaded : Array2 rgb;      (* [img_data] after line 39 *)
  grid_mask : Array2 bool;
  img_data : Array2 rgb     (* [img_data] after line 43 *)
}.

(** Lines 12 to 43, for a given rotation offset. *)
Definition arrays_from (offset : Q) (width height : Z) : Result Arrays :=
  x ← Np.linspace (- Np.pi) Np.pi width;
  y ← Np.linspace (Np.pi / 2) (- Np.pi / 2) height;
  let '(lon, lat) := meshgrid x y in
  let lon_moved := amap (lon_moved_of offset) lon in
  let lon_grid := amap on_grid lon_moved in
  let lat_grid := amap on_grid lat in
  let checker := amap2 checker_of lon_moved lat in
  let img0 := zeros height width in
  let img1 := set_red img0 (amap red_of lon_moved) in
  let img2 := set_green img1 (amap green_of lat) in
  let base := set_blue img2 100 in
  let shaded := update_where checker (scale_rgb (7 # 10)) base in
  let grid_mask := amap2 orb lon_grid lat_grid in
  let img_data := update_where grid_mask (fun _ => white) shaded in
  mret {| lon := lon; lat := lat; lon_moved := lon_moved;
          lon_grid := lon_grid; lat_grid := lat_grid; checker := checker;
          base := base; shaded := shaded;
          grid_mask := grid_mask; img_data := img_data |}.

(** Lines 9 to 43. *)
Definition arrays (frame_num total_frames width height : Z) : Result Arrays :=
  offset ← lon_offset frame_num total_frames;
  arrays_from offset width height.

(** ** [generate_frame]: the overlay (lines 46 to 85) *)

Section Overlay.

(** What the function takes from Pillow and NumPy without computing it
    itself: the font objects, the rasterised footprint of a text (offsets
    from the drawing position, each with an 8-bit coverage), the pixels of
    a filled ellipse and of its outline, and the sine. *)
Variable Font : Type.
Variable text_mask : Font -> string -> string -> list (Z * Z * Z).
Variable ellipse_fill : Z * Z * Z * Z -> list (Z * Z).
Variable ellipse_outline : Z * Z * Z * Z -> list (Z * Z).
Variable np_sin : Q -> Q.

(** The part of the environment the function reads: which font files
    exist ([os.path.exists]), what [ImageFont.truetype] loads ([None] when
    it raises), and the built-in font of [ImageFont.load_default]. *)
Record FontEnv : Type := {
  path_exists : string -> bool;
  truetype : string -> Z -> option Font;
  load_default : Font
}.

Definition helvetica : string := "/System/Library/Fonts/Helvetica.ttc".
Definition arial : string := "/System/Library/Fonts/Supplemental/Arial.ttf".

(** Lines 50 to 58: any failure falls back to the default font for both
    sizes.  The result is [(font_large, font_small)]. *)
Definition load_fonts (env : FontEnv) : Font * Font :=
  let font_path := if path_exists env helvetica then helvetica else arial in
  match truetype env font_path 60 with
  | Some font_large =>
      match truetype env font_path 30 with
      | Some font_small => (font_large, font_small)
      | None => (load_default env, load_default env)
      end
  | None => (load_default env, load_default env)
  end.

(** [draw.text(xy, text, fill=ink, font=font, anchor=anchor)] on an RGB
    image; a fourth component of the fill is not used there. *)
Definition draw_text (img : Array2 rgb) (xy : Z * Z) (text : string) (ink : rgb)
    (font : Font) (anchor : string) : Array2 rgb :=
  foldl (fun im '(dx, dy, cov) =>
           put im (xy.1 + dx) (xy.2 + dy) (blend_rgb (cov mod 256) ink))
        img (text_mask font text anchor).

(** [draw.ellipse(box, fill=fill, outline=outline)]: the interior, then the
    outline on top. *)
Definition draw_ellipse (img : Array2 rgb) (box : Z * Z * Z * Z) (fill outline : rgb)
    : Array2 rgb :=
  let img1 := foldl (fun im '(x, y) => put im x y (fun _ => fill)) img (ellipse_fill box) in
  foldl (fun im '(x, y) => put im x y (fun _ => outline)) img1 (ellipse_outline box).

Local Open Scope Q_scope.

(** Lines 62 to 66: the column of the meridian [lo_deg] in the moved frame. *)
Definition label_px (offset : Q) (width lo_deg : Z) : Z :=
  let lo_rad := Np.deg2rad (inject_Z lo_deg) in
  let curr_lo := Np.mod_ (lo_rad - offset + Np.pi) (2 * Np.pi) - Np.pi in
  Np.trunc ((curr_lo + Np.pi) / (2 * Np.pi) * inject_Z width).

(** Line 69. *)
Definition label_py (height la_deg : Z) : Z :=
  Np.trunc ((Np.pi / 2 - Np.deg2rad (inject_Z la_deg)) / Np.pi * inject_Z height).

(** Line 70. *)
Definition label_text (la_deg lo_deg : Z) : string :=
  (if (0 <=? la_deg)%Z
   then str_of_int la_deg +:+ degree +:+ "N, " +:+ str_of_int lo_deg +:+ degree +:+ "E"
   else str_of_int (- la_deg) +:+ degree +:+ "S, " +:+ str_of_int lo_deg +:+ degree +:+ "E")%string.

(** Lines 61 to 71: the two nested loops. *)
Definition draw_labels (img : Array2 rgb) (offset : Q) (width height : Z) (font_small : Font)
    : Array2 rgb :=
  foldl (fun im lo_deg =>
           let px := label_px offset width lo_deg in
           foldl (fun im' la_deg =>
                    let py := label_py height la_deg in
                    draw_text im' (px + 5, py + 5)%Z (label_text la_deg lo_deg)
                              white font_small "la")
                 im (range_step (-60) 90 30))
        img (range_step (-180) 180 45).

(** Line 78. *)
Definition caption (frame_num : Z) : string :=
  ("Frame: " +:+ str_of_int frame_num +:+ " | Time: " +:+
   format_2f (inject_Z frame_num / 30) +:+ "s")%string.

(** Lines 81 to 82: [%] on two ints raises for a zero divisor. *)
Definition ball_x (frame_num width : Z) : Result Z :=
  if (width =? 0)%Z then Raise ZeroDivisionError
  else Ok ((frame_num * 10) mod width)%Z.

Definition ball_y (frame_num height : Z) : Z :=
  Np.trunc (inject_Z height / 2 + np_sin (inject_Z frame_num * (2 # 10)) * 200).

(** [generate_frame(frame_num, total_frames, width, height)]. *)
Definition generate_frame (env : FontEnv) (frame_num total_frames width height : Z)
    : Result (Array2 rgb) :=
  offset ← lon_offset frame_num total_frames;
  a ← arrays_from offset width height;
  let img := img_data a in
  let '(font_large, font_small) := load_fonts env in
  let img := draw_labels img offset width height font_small in
  let img := draw_text img (width / 2, 50)%Z "NORTH POLE" white font_large "mt" in
  let img := draw_text img (width / 2, height - 100)%Z "SOUTH POLE" white font_large "mb" in
  let img := draw_text img (50, height - 50)%Z (caption frame_num) (255, 255, 0)%Z
                       font_small "la" in
  bx ← ball_x frame_num width;
  let by_ := ball_y frame_num height in
  mret (draw_ellipse img (bx - 30, by_ - 30, bx + 30, by_ + 30)%Z
                     (255, 0, 0)%Z white).

End Overlay.

End Frame.

(** ** [generate_true_equirectangular]: the array composite (lines 10 to 40) *)

Module TrueEquirect.

Local Open Scope Q_scope.

Definition grid_spacing : Q := Np.deg2rad 15.

Definition tolerance : Q := 2 # 100.

(** Lines 19 and 21, for one element:
    [(np.abs(v % s) < 0.02) | (np.abs((v + s/2) % s - s/2) < 0.02)]. *)
Definition on_grid (v : Q) : bool :=
  Np.ltb (Np.abs (Np.mod_ v grid_spacing)) tolerance
  || Np.ltb (Np.abs (Np.mod_ (v + grid_spacing / 2) grid_spacing - grid_spacing / 2))
            tolerance.

(** [(lon // grid_spacing) % 2 == (lat // grid_spacing) % 2]. *)
Definition checker_of (lon lat : Q) : bool :=
  Np.eqb (Np.mod_ (Np.floor_divide lon grid_spacing) 2)
         (Np.mod_ (Np.floor_divide lat grid_spacing) 2).

Definition red_of (lon : Q) : Q := (lon + Np.pi) / (2 * Np.pi) * 255.

Definition green_of (lat : Q) : Q := (lat + Np.pi / 2) / Np.pi * 255.

Record Arrays : Type := {
  lon : Array2 Q;
  lat : Array2 Q;
  lon_grid : Array2 bool;
  lat_grid : Array2 bool;
  checker : Array2 bool;
  base : Array2 rgb;        (* [img_data] after line 33 *)
  shaded : Array2 rgb;      (* [img_data] after line 36 *)
  grid_mask : Array2 bool;
  img_data : Array2 rgb     (* [img_data] after line 40 *)
}.

Definition arrays (width height : Z) : Result Arrays :=
  x ← Np.linspace (- Np.pi) Np.pi width;
  y ← Np.linspace (Np.pi / 2) (- Np.pi / 2) height;
  let '(lon, lat) := meshgrid x y in
  let lon_grid := amap on_grid lon in
  let lat_grid := amap on_grid lat in
  let checker := amap2 checker_of lon lat in
  let img0 := zeros height width in
  let img1 := set_red img0 (amap red_of lon) in
  let img2 := set_green img1 (amap green_of lat) in
  let base := set_blue img2 150 in
  let shaded := update_where checker (scale_rgb (8 # 10)) base in
  let grid_mask := amap2 orb lon_grid lat_grid in
  let img_data := update_where grid_mask (fun _ => white) shaded in
  mret {| lon := lon; lat := lat;
          lon_grid := lon_grid; lat_grid := lat_grid; checker := checker;
          base := base; shaded := shaded;
          grid_mask := grid_mask; img_data := img_data |}.

End TrueEquirect.

(** ** The segmentation endpoint *)

Module Segment.

(** JSON values of the request and of the response. *)
#[warnings="-register-all"]
Inductive Json : Type :=
| JNull
| JBool (b : bool)
| JInt (n : Z)
| JNum (x : Q)
| JStr (s : string)
| JList (l : list Json).

(** A detection box [x1, y1, x2, y2]. *)
Definition Box : Type := Q * Q * Q * Q.

(** What [post_process_grounded_object_detection] returns. *)
Record Detections : Type := {
  det_boxes : list Box;
  det_scores : list Q;
  det_labels : list string
}.

(** Calls into the two models, in the order they are made. *)
Inductive Event : Type :=
| GroundingDino (text_prompt : string)
| Sam2SetImage
| Sam2Predict (box : Box).

(** A computation that may raise and that records the model calls. *)
Definition M (A : Type) : Type := list Event -> Result A * list Event.

#[global] Instance M_ret : MRet M := fun A a tr => (Ok a, tr).

#[global] Instance M_bind : MBind M := fun A B k c tr =>
  match c tr with
  | (Ok a, tr') => k a tr'
  | (Raise e, tr') => (Raise e, tr')
  end.

(** A step that calls no model, and a call into a model. *)
Definition lift {A} (r : Result A) : M A := fun tr => (r, tr).

Definition invoke {A} (ev : Event) (r : Result A) : M A := fun tr => (r, tr ++ [ev]).

(** [for x in xs: ys.append(f(x))]. *)
Fixpoint for_each {A B} (f : A -> M B) (xs : list A) : M (list B) :=
  match xs with
  | [] => mret []
  | x :: xs' => y ← f x; ys ← for_each f xs'; mret (y :: ys)
  end.

(** Two arrays have one shape. *)
Definition same_shape {A B} (a : Array2 A) (b : Array2 B) : bool :=
  bool_decide (List.map length a = List.map length b).

(** Lines 100 to 105: the image under the mask, opaque, on a transparent
    background.  Boolean indexing raises when the shapes differ. *)
Definition cutout (img : Array2 rgb) (mask : Array2 bool) : Result (Array2 rgba) :=
  if same_shape mask img
  then Ok (amap2 (fun (sel : bool) '(r, g, b) =>
                    if sel then (r, g, b, 255) else (0, 0, 0, 0)) mask img)
  else Raise IndexError.

(** [.astype(bool)] of a float mask. *)
Definition astype_bool (m : Array2 Q) : Array2 bool :=
  amap (fun v => negb (Qeq_bool v 0)) m.

Definition json_of_box (b : Box) : Json :=
  let '(x1, y1, x2, y2) := b in JList [JNum x1; JNum y1; JNum x2; JNum y2].

(** [str.endswith('.')] and [str.lower] on ASCII text. *)
Definition ends_with_dot (s : string) : bool :=
  match List.last (list_ascii_of_string s) "x"%char with
  | "."%char => true
  | _ => false
  end.

Definition lower_ascii (c : ascii) : ascii :=
  let n := nat_of_ascii c in
  if ((65 <=? n) && (n <=? 90))%nat then ascii_of_nat (n + 32) else c.

Definition lower (s : string) : string :=
  string_of_list_ascii (List.map lower_ascii (list_ascii_of_string s)).

(** Lines 51 to 53: a final dot is added when missing, then the text is
    lowered. *)
Definition format_prompt (text_prompt : string) : string :=
  let text_prompt := if ends_with_dot text_prompt then text_prompt
                     else (text_prompt +:+ ".")%string in
  lower text_prompt.

(** The reply of the endpoint: a dict, or a dict paired with a status. *)
Inductive Reply : Type :=
| Body (d : gmap string Json)
| BodyStatus (d : gmap string Json) (status : Z).

Section Endpoint.

(** The collaborators the wrapper calls and does not implement: base64 and
    image decoding, the detector (Grounding DINO: processor, model and
    post-processing), the segmenter (SAM2: [set_image] and one [predict]
    per box, giving [masks[0]]), the PNG-and-base64 encoder, the matplotlib
    overlay, and [str(e)]. *)
Variable bytes : Type.
Variable b64decode : Json -> Result bytes.
Variable image_open_rgb : bytes -> Result (Array2 rgb).
Variable grounding_dino : Array2 rgb -> string -> Json -> Result Detections.
Variable Predictor : Type.
Variable sam2_set_image : Array2 rgb -> Result Predictor.
Variable sam2_predict : Predictor -> Box -> Result (Array2 Q).
Variable png_base64 : Array2 rgba -> string.
Variable visualization : Array2 rgb -> list (Array2 bool) -> Detections -> Result string.
Variable str_exn : Exn -> string.

(** [segment_objects_internal(image_bytes, text_prompt, box_threshold,
    return_visualization)]. *)
Definition segment_objects_internal (image_bytes : bytes) (text_prompt : Json)
    (box_threshold : Json) (return_visualization : bool) : M (gmap string Json) :=
  image ← lift (image_open_rgb image_bytes);
  text_prompt ← lift (match text_prompt with
                      | JStr s => Ok s
                      | _ => Raise AttributeError
                      end);
  let text_prompt := format_prompt text_prompt in
  results ← invoke (GroundingDino text_prompt)
                   (grounding_dino image text_prompt box_threshold);
  let boxes := det_boxes results in
  let scores := det_scores results in
  let labels := det_labels results in
  sam2_predictor ← invoke Sam2SetImage (sam2_set_image image);
  masks_list ← for_each (fun box => invoke (Sam2Predict box) (sam2_predict sam2_predictor box))
                        boxes;
  let masks_array := List.map astype_bool masks_list in
  let result : gmap string Json :=
    <[ "labels" := JList (List.map JStr labels) ]>
    (<[ "scores" := JList (List.map JNum scores) ]>
    (<[ "boxes" := JList (List.map json_of_box boxes) ]>
    (<[ "num_objects" := JInt (Z.of_nat (length masks_array)) ]> ∅))) in
  match masks_array with
  | [] => mret result
  | combined_mask :: _ =>
      masked_rgba ← lift (cutout image combined_mask);
      let result := <[ "masked_image_base64" := JStr (png_base64 masked_rgba) ]> result in
      if return_visualization then
        vis ← lift (visualization image masks_array results);
        mret (<[ "visualization_base64" := JStr vis ]> result)
      else mret result
  end.

Definition error_body (msg : string) : gmap string Json := {[ "error" := JStr msg ]}.

(** The body of the [try] of [segment]. *)
Definition segment_body (data : gmap string Json) : M Reply :=
  match data !! "image_base64" with
  | None => mret (BodyStatus (error_body "Missing 'image_base64' field") 400)
  | Some image_base64 =>
      match data !! "prompt" with
      | None => mret (BodyStatus (error_body "Missing 'prompt' field") 400)
      | Some prompt =>
          image_bytes ← lift (b64decode image_base64);
          result ← segment_objects_internal image_bytes prompt
                     (default (JNum (3 # 10)) (data !! "threshold")) true;
          mret (Body result)
      end
  end.

(** [segment(data)]: every exception becomes an error body with status 500. *)
Definition segment (data : gmap string Json) : M Reply := fun tr =>
  match segment_body data tr with
  | (Ok reply, tr') => (Ok reply, tr')
  | (Raise e, tr') => (Ok (BodyStatus (error_body (str_exn e)) 500), tr')
  end.

End Endpoint.

End Segment.

(** ** Python's format of an int *)

(** [format(n, spec)] for the specifications the sources use: an optional
    sign ([+], [-] or a space), an optional [0], an optional width and an
    optional type [d], in that order.  After the sign, the zero and the
    width Python accepts at most one more character, the type; a longer
    rest is an invalid specification and raises [ValueError].  The other
    parts of the mini-language (fill and alignment, [#], grouping,
    precision, other types) are not covered. *)
Definition is_digit (c : ascii) : bool :=
  let n := nat_of_ascii c in ((48 <=? n) && (n <=? 57))%nat.

Fixpoint read_width (l : list ascii) (acc : Z) : Z * list ascii :=
  match l with
  | c :: r =>
      if is_digit c then read_width r (10 * acc + (Z.of_nat (nat_of_ascii c) - 48))
      else (acc, l)
  | [] => (acc, [])
  end.

Definition repeat_char (c : ascii) (n : Z) : string :=
  string_of_list_ascii (List.repeat c (Z.to_nat n)).

Definition format_int (spec : string) (n : Z) : Result string :=
  let l := list_ascii_of_string spec in
  let '(sign, l) :=
    match l with
    | "+"%char :: r => ("+"%string, r)
    | "-"%char :: r => (""%string, r)
    | " "%char :: r => (" "%string, r)
    | _ => (""%string, l)
    end in
  let '(zero, l) :=
    match l with
    | "0"%char :: r => (true, r)
    | _ => (false, l)
    end in
  let '(width, l) := read_width l 0 in
  let sign_text := if n <? 0 then "-"%string else sign in
  let digits := str_of_int (Z.abs n) in
  let missing := width - Z.of_nat (String.length sign_text + String.length digits) in
  let text :=
    if zero then (sign_text +:+ repeat_char "0" missing +:+ digits)%string
    else (repeat_char " " missing +:+ sign_text +:+ digits)%string in
  match l with
  | [] => Ok text
  | ["d"%char] => Ok text
  | _ => Raise ValueError
  end.

(** Reading a decimal text back, as [int(s)] does for digits. *)
Definition parse_int (s : string) : option Z :=
  Z.of_int <$> DecimalString.NilZero.int_of_string s.

(** [for x in xs: state = body(state, x)], where the body may raise. *)
Fixpoint for_loop {S A} (body : S -> A -> Result S) (xs : list A) (s : S) : Result S :=
  match xs with
  | [] => Ok s
  | x :: xs' => s' ← body s x; for_loop body xs' s'
  end.

(** ** [main] of [generate_test_360_video.py] *)

Module Driver.

(** How [subprocess.run(cmd, check=True)] ends: the program ran and
    exited with a status, or it could not be started and [run] raised. *)
Inductive RunOutcome : Type :=
| Exited (status : Z)
| NotStarted (e : Exn).

(** What [main] touches: the directory [temp_frames], absent or holding
    images by file name, and the lines printed. *)
Record World : Type := {
  temp_frames : option (gmap string (Array2 rgb));
  stdout : list string
}.

Definition output_dir : string := "temp_frames".
Definition video_name : string := "bitzone_test_360.mp4".

(** Lines 105 to 113. *)
Definition cmd : list string :=
  ["ffmpeg"; "-y"; "-framerate"; "30";
   "-i"; (output_dir +:+ "/frame_%04d.png")%string;
   "-c:v"; "libx264"; "-pix_fmt"; "yuv420p"; "-crf"; "18"; video_name].

(** The file name of frame [i] inside [output_dir]: [frame_{i:04d}.png]. *)
Definition frame_file (i : Z) : Result string :=
  number ← format_int "04d" i;
  mret ("frame_" +:+ number +:+ ".png")%string.

Section Main.

Variable Font : Type.
Variable text_mask : Font -> string -> string -> list (Z * Z * Z).
Variable ellipse_fill : Z * Z * Z * Z -> list (Z * Z).
Variable ellipse_outline : Z * Z * Z * Z -> list (Z * Z).
Variable np_sin : Q -> Q.

(** The encoder, which reads the frames, and [str(e)] of the
    [CalledProcessError] for a command and an exit status. *)
Variable run_encoder : list string -> gmap string (Array2 rgb) -> RunOutcome.
Variable str_called_process_error : list string -> Z -> string.

(** One turn of the loop of lines 98 to 102. *)
Definition render_one (env : Frame.FontEnv Font) (total_frames width height : Z)
    (st : gmap string (Array2 rgb) * list string) (i : Z)
    : Result (gmap string (Array2 rgb) * list string) :=
  let '(files, out) := st in
  img ← Frame.generate_frame Font text_mask ellipse_fill ellipse_outline np_sin
                              env i total_frames width height;
  name ← frame_file i;
  let files := <[ name := img ]> files in
  let out :=
    if ((i + 1) mod 30 =? 0)%Z
    then out ++ [("  Frame " +:+ str_of_int (i + 1) +:+ "/" +:+ str_of_int total_frames
                  +:+ " done")%string]
    else out in
  mret (files, out).

(** Lines 97 to 102, into a directory holding [files]. *)
Definition render_frames (env : Frame.FontEnv Font) (total_frames width height : Z)
    (files : gmap string (Array2 rgb)) (out : list string)
    : Result (gmap string (Array2 rgb) * list string) :=
  let out := out ++ [("Generating " +:+ str_of_int total_frames +:+ " frames...")%string] in
  for_loop (render_one env total_frames width height) (Np.zrange total_frames) (files, out).

(** Lines 93 to 95: [shutil.rmtree] when the directory exists, then
    [os.makedirs]; the result is the content of the new directory. *)
Definition fresh_dir (dir : option (gmap string (Array2 rgb))) : gmap string (Array2 rgb) :=
  let dir : option (gmap string (Array2 rgb)) :=
    match dir with
    | Some _ => None
    | None => None
    end in
  match dir with
  | Some files => files
  | None => ∅
  end.

(** [main()]: an old [temp_frames] is removed and a new, empty one made;
    the frames are rendered and saved; the encoder is run.  Only a
    non-zero exit status of the encoder is caught. *)
Definition main (env : Frame.FontEnv Font) (w : World) : Result World :=
  let width := 2048 in
  let height := 1024 in
  let total_frames := 150 in
  let files := fresh_dir (temp_frames w) in
  '(files, out) ← render_frames env total_frames width height files (stdout w);
  let out := out ++ ["Encoding video with ffmpeg..."] in
  match run_encoder cmd files with
  | Exited 0 =>
      mret {| temp_frames := Some files;
              stdout := out ++ [("Successfully created " +:+ video_name)%string] |}
  | Exited status =>
      mret {| temp_frames := Some files;
              stdout := out ++ [("Error during video encoding: "
                                 +:+ str_called_process_error cmd status)%string] |}
  | NotStarted e => Raise e
  end.

End Main.

End Driver.

(** ** [generate_true_equirectangular]: the whole function *)

Module TrueRender.

Definition output_file : string := "true_equirect_uv.png".

Section Render.

Variable Font : Type.
Variable text_mask : Font -> string -> string -> list (Z * Z * Z).

(** The pixels of [draw.line([p0, p1], width=n)]. *)
Variable line_pixels : Z * Z -> Z * Z -> Z -> list (Z * Z).

(** Lines 47 to 53. *)
Definition load_font (env : Frame.FontEnv Font) : Font :=
  let font_path := if Frame.path_exists Font env Frame.helvetica
                   then Frame.helvetica else Frame.arial in
  match Frame.truetype Font env font_path 30 with
  | Some font => font
  | None => Frame.load_default Font env
  end.

Definition draw_line (img : Array2 rgb) (p0 p1 : Z * Z) (fill : rgb) (n : Z) : Array2 rgb :=
  foldl (fun im '(x, y) => put im x y (fun _ => fill)) img (line_pixels p0 p1 n).

Local Open Scope Q_scope.

(** Lines 59 to 68, for one longitude [lo] and one latitude [la] of the
    two [np.arange]: the first label is formatted and then replaced. *)
Definition draw_label (font : Font) (width height lo : Z) (img : Array2 rgb) (la : Z)
    : Result (Array2 rgb) :=
  let px := Np.trunc ((inject_Z lo + 180) / 360 * inject_Z width) in
  let py := Np.trunc ((90 - inject_Z la) / 180 * inject_Z height) in
  la_text ← format_int "+" la;
  lo_text ← format_int "+ laboratory" lo;
  let label := (la_text +:+ degree +:+ "," +:+ lo_text +:+ degree)%string in
  let label :=
    (if (0 <=? la)%Z
     then str_of_int la +:+ "N " +:+ str_of_int lo +:+ "E"
     else str_of_int (- la) +:+ "S " +:+ str_of_int lo +:+ "E")%string in
  mret (Frame.draw_text Font text_mask img (px, py) label white font "la").

(** [generate_true_equirectangular(width, height)], with the files of
    the working directory. *)
Definition generate_true_equirectangular (env : Frame.FontEnv Font) (width height : Z)
    (files : gmap string (Array2 rgb)) : Result (gmap string (Array2 rgb)) :=
  a ← TrueEquirect.arrays width height;
  let img := TrueEquirect.img_data a in
  let font := load_font env in
  img ← for_loop (fun im lo =>
                    for_loop (draw_label font width height lo) (range_step (-60) 90 30) im)
                 (range_step (-180) 180 30) img;
  let img := draw_line img (0, 0)%Z (width, 0)%Z (255, 0, 0)%Z 5 in
  let img := draw_line img (0, height - 1)%Z (width, height - 1)%Z (0, 0, 255)%Z 5 in
  mret (<[ output_file := img ]> files).

End Render.

End TrueRender.

(** ** Vocabulary of the statements *)

(** [a] has [h] rows of [w] elements each. *)
Definition shape {A} (h w : nat) (a : Array2 A) : Prop :=
  length a = h /\ Forall (fun row => length row = w) a.

(** The three channels of a pixel are 8-bit values. *)
Definition pixel_ok (p : rgb) : Prop :=
  let '(r, g, b) := p in
  (0 <= r <= 255) /\ (0 <= g <= 255) /\ (0 <= b <= 255).

(** A raster of [h] rows and [w] columns of 8-bit pixels. *)
Definition raster (h w : nat) (img : Array2 rgb) : Prop :=
  shape h w img /\ Forall (Forall pixel_ok) img.

(** The coordinates of the pixel in row [j] and column [i], as
    [np.linspace] and [np.meshgrid] give them, and the rotation offset. *)
Definition lon_at (w : Z) (i : nat) : Q :=
  Np.linspace_at (- Np.pi) Np.pi w (Z.of_nat i).

Definition lat_at (h : Z) (j : nat) : Q :=
  Np.linspace_at (Np.pi / 2) (- Np.pi / 2) h (Z.of_nat j).

Definition offset_of (f t : Z) : Q := (inject_Z f / inject_Z t * 2 * Np.pi)%Q.

Definition lon_moved_at (f t w : Z) (i : nat) : Q :=
  Frame.lon_moved_of (offset_of f t) (lon_at w i).


(** The distance from [v] to the multiple [k * spacing]. *)
Definition dist_to_multiple (spacing v : Q) (k : Z) : Q :=
  Qabs (v - inject_Z k * spacing).


(** Collaborators used to run the renderer on concrete inputs: one font
    per size, a two-pixel text footprint, a one-pixel ellipse and a
    constant sine. *)
Definition demo_text_mask (font : Z) (text anchor : string) : list (Z * Z * Z) :=
  [(0, 0, 255); (1, 0, font)].

Definition demo_ellipse (box : Z * Z * Z * Z) : list (Z * Z) :=
  let '(x0, y0, x1, y1) := box in [((x0 + x1) / 2, (y0 + y1) / 2)].

Definition demo_sin (x : Q) : Q := 0%Q.

(** An environment without font files, and one where Helvetica loads. *)
Definition no_fonts : Frame.FontEnv Z :=
  {| Frame.path_exists := fun _ => false;
     Frame.truetype := fun _ _ => None;
     Frame.load_default := 10 |}.



Definition demo_generate_frame :=
  Frame.generate_frame Z demo_text_mask demo_ellipse demo_ellipse demo_sin.

(** Collaborators used to run the endpoint on concrete requests: the
    "bytes" are the decoded image itself, the detector finds two boxes for
    the prompt [cat.] and none otherwise, and the segmenter gives the top
    left pixel for a box that starts at the origin and the bottom right
    pixel for any other. *)
Definition demo_image : Array2 rgb :=
  [[(10, 20, 30); (40, 50, 60)]; [(70, 80, 90); (100, 110, 120)]].

Definition demo_b64decode (j : Segment.Json) : Result (Array2 rgb) :=
  match j with
  | Segment.JStr _ => Ok demo_image
  | _ => Raise (OtherError "argument should be a bytes-like object or ASCII string")
  end.

Definition demo_detector (image : Array2 rgb) (text_prompt : string)
    (threshold : Segment.Json) : Result Segment.Detections :=
  if bool_decide (text_prompt = "cat.")
  then Ok {| Segment.det_boxes := [(0, 0, 1, 1)%Q; (1, 1, 2, 2)%Q];
             Segment.det_scores := [(9 # 10)%Q; (8 # 10)%Q];
             Segment.det_labels := ["cat"; "cat"] |}
  else Ok {| Segment.det_boxes := []; Segment.det_scores := [];
             Segment.det_labels := [] |}.

Definition demo_predict (predictor : unit) (box : Segment.Box) : Result (Array2 Q) :=
  let '(x1, _, _, _) := box in
  if Qeq_bool x1 0 then Ok [[1%Q; 0%Q]; [0%Q; 0%Q]] else Ok [[0%Q; 0%Q]; [0%Q; 1%Q]].

Definition demo_str_exn (e : Exn) : string :=
  match e with
  | OtherError msg => msg
  | _ => "error"
  end.

Definition demo_segment : gmap string Segment.Json -> Segment.M Segment.Reply :=
  Segment.segment (Array2 rgb) demo_b64decode (fun b => Ok b) demo_detector
                  unit (fun _ => Ok tt) demo_predict
                  (fun _ => "PNG") (fun _ _ _ => Ok "VIS") demo_str_exn.

Definition cat_request : gmap string Segment.Json :=
  <[ "prompt" := Segment.JStr "Cat" ]> {[ "image_base64" := Segment.JStr "aGk=" ]}.


(** The message of an error reply. *)
Definition reply_error (r : Result Segment.Reply) : option Segment.Json :=
  match r with
  | Ok (Segment.BodyStatus d _) => d !! "error"
  | _ => None
  end.

(** The missing-prompt sentence as the specification words it, for an
    endpoint [segment]: whenever the request has no ['prompt'] key the
    reply is the prompt message with status 400 and no model is called. *)
Definition missing_prompt_always_reported
    (segment : gmap string Segment.Json -> Segment.M Segment.Reply) : Prop :=
  forall data tr,
    data !! "prompt" = None ->
    segment data tr
    = (Ok (Segment.BodyStatus (Segment.error_body "Missing 'prompt' field") 400), tr).

(** A request whose image is not a string, and a detector that fails. *)
Definition bad_image_request : gmap string Segment.Json :=
  <[ "prompt" := Segment.JStr "cat" ]> {[ "image_base64" := Segment.JInt 5 ]}.

Definition failing_detector (image : Array2 rgb) (text_prompt : string)
    (threshold : Segment.Json) : Result Segment.Detections :=
  Raise (OtherError "CUDA out of memory").

(** The request [cat_request] with the default threshold written out and a
    key the endpoint does not know. *)
Definition verbose_cat_request : gmap string Segment.Json :=
  <[ "threshold" := Segment.JNum (3 # 10) ]>
  (<[ "debug" := Segment.JBool true ]> cat_request).

(** A line rasteriser used to run [generate_true_equirectangular]. *)
Definition demo_line (p0 p1 : Z * Z) (n : Z) : list (Z * Z) := [p0; p1].

(** * Properties *)

(** ** Arrays: shapes and element access *)

Lemma at2_Some_lt {A} (h w : nat) (a : Array2 A) j i x :
  shape h w a -> at2 a j i = Some x -> (j < h)%nat /\ (i < w)%nat.
Proof.
  intros [Hh Hw] Hat. unfold at2 in Hat.
  destruct (a !! j) as [row|] eqn:Hrow; simpl in Hat; [|discriminate].
  split.
  - rewrite <- Hh. eapply lookup_lt_Some; eauto.
  - rewrite Forall_lookup in Hw. rewrite <- (Hw _ _ Hrow).
    eapply lookup_lt_Some; eauto.
Qed.

Lemma at2_is_Some {A} (h w : nat) (a : Array2 A) j i :
  shape h w a -> (j < h)%nat -> (i < w)%nat -> is_Some (at2 a j i).
Proof.
  intros [Hh Hw] Hj Hi. unfold at2.
  destruct (lookup_lt_is_Some_2 a j) as [row Hrow]; [lia|].
  rewrite Hrow. simpl. apply lookup_lt_is_Some_2.
  rewrite Forall_lookup in Hw. rewrite (Hw _ _ Hrow). exact Hi.
Qed.

Lemma at2_amap {A B} (f : A -> B) (a : Array2 A) j i :
  at2 (amap f a) j i = f <$> at2 a j i.
Proof.
  unfold at2, amap. rewrite list_lookup_fmap.
  destruct (a !! j) as [row|]; simpl; [|reflexivity].
  apply list_lookup_fmap.
Qed.

Lemma at2_amap2 {A B C} (f : A -> B -> C) (a : Array2 A) (b : Array2 B) j i :
  at2 (amap2 f a b) j i = (x ← at2 a j i; y ← at2 b j i; Some (f x y)).
Proof.
  unfold at2, amap2. rewrite lookup_zip_with.
  destruct (a !! j) as [ra|]; simpl; [|reflexivity].
  destruct (b !! j) as [rb|]; simpl.
  - rewrite lookup_zip_with. reflexivity.
  - destruct (ra !! i); reflexivity.
Qed.

Lemma shape_amap {A B} (f : A -> B) h w (a : Array2 A) :
  shape h w a -> shape h w (amap f a).
Proof.
  intros [Hh Hw]. split.
  - unfold amap. rewrite length_map. exact Hh.
  - unfold amap. apply Forall_fmap. eapply Forall_impl; [exact Hw|].
    intros row Hrow. simpl. rewrite length_map. exact Hrow.
Qed.

Lemma shape_amap2 {A B C} (f : A -> B -> C) h w (a : Array2 A) (b : Array2 B) :
  shape h w a -> shape h w b -> shape h w (amap2 f a b).
Proof.
  intros [Ha Hwa] [Hb Hwb]. split.
  - unfold amap2. rewrite length_zip_with. lia.
  - apply Forall_lookup. intros j row Hrow.
    unfold amap2 in Hrow. rewrite lookup_zip_with in Hrow.
    destruct (a !! j) as [ra|] eqn:Hra; simpl in Hrow; [|discriminate].
    destruct (b !! j) as [rb|] eqn:Hrb; simpl in Hrow; [|discriminate].
    injection Hrow as <-. rewrite length_zip_with.
    rewrite Forall_lookup in Hwa. rewrite Forall_lookup in Hwb.
    rewrite (Hwa _ _ Hra), (Hwb _ _ Hrb). lia.
Qed.

Lemma shape_zeros (height width : Z) :
  shape (Z.to_nat height) (Z.to_nat width) (zeros height width).
Proof.
  split.
  - unfold zeros. apply length_replicate.
  - unfold zeros. apply Forall_replicate. apply length_replicate.
Qed.

Lemma shape_meshgrid (x y : list Q) :
  shape (length y) (length x) (meshgrid x y).1 /\
  shape (length y) (length x) (meshgrid x y).2.
Proof.
  unfold meshgrid, shape. simpl. rewrite !length_map. repeat split.
  - apply Forall_fmap, Forall_true. intros yj. reflexivity.
  - apply Forall_fmap, Forall_true. intros yj. simpl. apply length_map.
Qed.

Lemma at2_meshgrid_lon (x y : list Q) j i :
  (j < length y)%nat -> at2 (meshgrid x y).1 j i = x !! i.
Proof.
  intros Hj. unfold at2, meshgrid. simpl. rewrite list_lookup_fmap.
  destruct (lookup_lt_is_Some_2 y j Hj) as [yj Hyj]. rewrite Hyj. reflexivity.
Qed.

Lemma at2_meshgrid_lat (x y : list Q) j i :
  (i < length x)%nat -> at2 (meshgrid x y).2 j i = y !! j.
Proof.
  intros Hi. unfold at2, meshgrid. simpl. rewrite list_lookup_fmap.
  destruct (y !! j) as [yj|]; simpl; [|reflexivity].
  rewrite list_lookup_fmap.
  destruct (lookup_lt_is_Some_2 x i Hi) as [xi Hxi]. rewrite Hxi. reflexivity.
Qed.

Lemma length_zrange (n : Z) : length (Np.zrange n) = Z.to_nat n.
Proof. unfold Np.zrange. rewrite length_map. apply length_seq. Qed.

Lemma lookup_zrange (n : Z) (i : nat) :
  (i < Z.to_nat n)%nat -> Np.zrange n !! i = Some (Z.of_nat i).
Proof.
  intros Hi. unfold Np.zrange. rewrite list_lookup_fmap.
  rewrite lookup_seq_lt by exact Hi. reflexivity.
Qed.

Lemma linspace_Ok (start stop : Q) (num : Z) :
  0 <= num ->
  Np.linspace start stop num = Ok (List.map (Np.linspace_at start stop num) (Np.zrange num)).
Proof.
  intros Hn. unfold Np.linspace.
  destruct (Z.ltb_spec num 0); [lia|reflexivity].
Qed.

Lemma lookup_linspace (start stop : Q) (num : Z) (i : nat) :
  (i < Z.to_nat num)%nat ->
  List.map (Np.linspace_at start stop num) (Np.zrange num) !! i
  = Some (Np.linspace_at start stop num (Z.of_nat i)).
Proof.
  intros Hi. rewrite list_lookup_fmap, lookup_zrange by exact Hi. reflexivity.
Qed.

(** ** [generate_frame]: the arrays of one call *)

Lemma mbind_Ok {A B} (r : Result A) (k : A -> Result B) (b : B) :
  r ≫= k = Ok b -> exists a, r = Ok a /\ k a = Ok b.
Proof. destruct r as [a|e]; simpl; intros H; [eauto | discriminate]. Qed.

Lemma linspace_inv (start stop : Q) (num : Z) (l : list Q) :
  Np.linspace start stop num = Ok l ->
  0 <= num /\ l = List.map (Np.linspace_at start stop num) (Np.zrange num).
Proof.
  unfold Np.linspace. destruct (Z.ltb_spec num 0); [discriminate|].
  intros [= <-]. split; [lia|reflexivity].
Qed.

Lemma lon_offset_inv (f t : Z) (offset : Q) :
  Frame.lon_offset f t = Ok offset ->
  t <> 0 /\ offset = (inject_Z f / inject_Z t * 2 * Np.pi)%Q.
Proof.
  unfold Frame.lon_offset. destruct (Z.eqb_spec t 0); [discriminate|].
  intros [= <-]. split; [assumption|reflexivity].
Qed.

(** The arrays of a call that succeeds, each given by the line that
    computes it. *)
Lemma Frame_arrays_fields (f t w h : Z) (a : Frame.Arrays) :
  Frame.arrays f t w h = Ok a ->
  exists offset x y,
    Frame.lon_offset f t = Ok offset /\
    Np.linspace (- Np.pi) Np.pi w = Ok x /\
    Np.linspace (Np.pi / 2) (- Np.pi / 2) h = Ok y /\
    Frame.lon a = (meshgrid x y).1 /\
    Frame.lat a = (meshgrid x y).2 /\
    Frame.lon_moved a = amap (Frame.lon_moved_of offset) (Frame.lon a) /\
    Frame.lon_grid a = amap Frame.on_grid (Frame.lon_moved a) /\
    Frame.lat_grid a = amap Frame.on_grid (Frame.lat a) /\
    Frame.checker a = amap2 Frame.checker_of (Frame.lon_moved a) (Frame.lat a) /\
    Frame.base a =
      set_blue (set_green (set_red (zeros h w) (amap Frame.red_of (Frame.lon_moved a)))
                          (amap Frame.green_of (Frame.lat a))) 100 /\
    Frame.shaded a = update_where (Frame.checker a) (scale_rgb (7 # 10)) (Frame.base a) /\
    Frame.grid_mask a = amap2 orb (Frame.lon_grid a) (Frame.lat_grid a) /\
    Frame.img_data a = update_where (Frame.grid_mask a) (fun _ => white) (Frame.shaded a).
Proof.
  unfold Frame.arrays. intros H.
  apply mbind_Ok in H as (offset & Hoff & H). unfold Frame.arrays_from in H.
  apply mbind_Ok in H as (x & Hx & H).
  apply mbind_Ok in H as (y & Hy & H).
  exists offset, x, y. injection H as <-. simpl.
  repeat split; assumption.
Qed.

Lemma Frame_arrays_total (f t w h : Z) :
  t <> 0 -> 0 <= w -> 0 <= h -> exists a, Frame.arrays f t w h = Ok a.
Proof.
  intros Ht Hw Hh. unfold Frame.arrays, Frame.arrays_from, Frame.lon_offset.
  destruct (Z.eqb_spec t 0); [contradiction|].
  rewrite !linspace_Ok by assumption. simpl. eexists. reflexivity.
Qed.

(** Every array of a call has [height] rows and [width] columns. *)
Lemma Frame_arrays_shape (f t w h : Z) (a : Frame.Arrays) :
  Frame.arrays f t w h = Ok a ->
  let H := Z.to_nat h in
  let W := Z.to_nat w in
  shape H W (Frame.lon a) /\ shape H W (Frame.lat a) /\
  shape H W (Frame.lon_moved a) /\
  shape H W (Frame.lon_grid a) /\ shape H W (Frame.lat_grid a) /\
  shape H W (Frame.checker a) /\
  shape H W (Frame.base a) /\ shape H W (Frame.shaded a) /\
  shape H W (Frame.grid_mask a) /\ shape H W (Frame.img_data a).
Proof.
  intros Ha H W.
  destruct (Frame_arrays_fields _ _ _ _ _ Ha)
    as (offset & x & y & _ & Hx & Hy & Hlon & Hlat & Hlm & Hlg & Hlag & Hch & Hb & Hs & Hg & Hi).
  apply linspace_inv in Hx as [Hw ->]. apply linspace_inv in Hy as [Hh ->].
  assert (Slon : shape H W (Frame.lon a)).
  { rewrite Hlon. pose proof (shape_meshgrid
      (List.map (Np.linspace_at (- Np.pi) Np.pi w) (Np.zrange w))
      (List.map (Np.linspace_at (Np.pi / 2) (- Np.pi / 2) h) (Np.zrange h))) as [S _].
    rewrite !length_map, !length_zrange in S. exact S. }
  assert (Slat : shape H W (Frame.lat a)).
  { rewrite Hlat. pose proof (shape_meshgrid
      (List.map (Np.linspace_at (- Np.pi) Np.pi w) (Np.zrange w))
      (List.map (Np.linspace_at (Np.pi / 2) (- Np.pi / 2) h) (Np.zrange h))) as [_ S].
    rewrite !length_map, !length_zrange in S. exact S. }
  assert (Slm : shape H W (Frame.lon_moved a)) by (rewrite Hlm; apply shape_amap, Slon).
  assert (Slg : shape H W (Frame.lon_grid a)) by (rewrite Hlg; apply shape_amap, Slm).
  assert (Slag : shape H W (Frame.lat_grid a)) by (rewrite Hlag; apply shape_amap, Slat).
  assert (Sch : shape H W (Frame.checker a)) by (rewrite Hch; apply shape_amap2; assumption).
  assert (Sb : shape H W (Frame.base a)).
  { rewrite Hb. unfold set_blue, set_green, set_red.
    apply shape_amap. apply shape_amap2; [|apply shape_amap, Slat].
    apply shape_amap2; [apply shape_zeros|apply shape_amap, Slm]. }
  assert (Ssh : shape H W (Frame.shaded a))
    by (rewrite Hs; apply shape_amap2; assumption).
  assert (Sg : shape H W (Frame.grid_mask a))
    by (rewrite Hg; apply shape_amap2; assumption).
  assert (Si : shape H W (Frame.img_data a))
    by (rewrite Hi; apply shape_amap2; assumption).
  repeat split; try apply Slon; try apply Slat; try apply Slm; try apply Slg;
    try apply Slag; try apply Sch; try apply Sb; try apply Ssh; try apply Sg; try apply Si.
Qed.

(** ** [generate_true_equirectangular]: the arrays of one call *)

Lemma True_arrays_fields (w h : Z) (a : TrueEquirect.Arrays) :
  TrueEquirect.arrays w h = Ok a ->
  exists x y,
    Np.linspace (- Np.pi) Np.pi w = Ok x /\
    Np.linspace (Np.pi / 2) (- Np.pi / 2) h = Ok y /\
    TrueEquirect.lon a = (meshgrid x y).1 /\
    TrueEquirect.lat a = (meshgrid x y).2 /\
    TrueEquirect.lon_grid a = amap TrueEquirect.on_grid (TrueEquirect.lon a) /\
    TrueEquirect.lat_grid a = amap TrueEquirect.on_grid (TrueEquirect.lat a) /\
    TrueEquirect.checker a =
      amap2 TrueEquirect.checker_of (TrueEquirect.lon a) (TrueEquirect.lat a) /\
    TrueEquirect.base a =
      set_blue (set_green (set_red (zeros h w) (amap TrueEquirect.red_of (TrueEquirect.lon a)))
                          (amap TrueEquirect.green_of (TrueEquirect.lat a))) 150 /\
    TrueEquirect.shaded a =
      update_where (TrueEquirect.checker a) (scale_rgb (8 # 10)) (TrueEquirect.base a) /\
    TrueEquirect.grid_mask a = amap2 orb (TrueEquirect.lon_grid a) (TrueEquirect.lat_grid a) /\
    TrueEquirect.img_data a =
      update_where (TrueEquirect.grid_mask a) (fun _ => white) (TrueEquirect.shaded a).
Proof.
  unfold TrueEquirect.arrays. intros H.
  apply mbind_Ok in H as (x & Hx & H).
  apply mbind_Ok in H as (y & Hy & H).
  exists x, y. injection H as <-. simpl.
  repeat split; assumption.
Qed.

Lemma True_arrays_total (w h : Z) :
  0 <= w -> 0 <= h -> exists a, TrueEquirect.arrays w h = Ok a.
Proof.
  intros Hw Hh. unfold TrueEquirect.arrays.
  rewrite !linspace_Ok by assumption. simpl. eexists. reflexivity.
Qed.

Lemma True_arrays_shape (w h : Z) (a : TrueEquirect.Arrays) :
  TrueEquirect.arrays w h = Ok a ->
  let H := Z.to_nat h in
  let W := Z.to_nat w in
  shape H W (TrueEquirect.lon a) /\ shape H W (TrueEquirect.lat a) /\
  shape H W (TrueEquirect.lon_grid a) /\ shape H W (TrueEquirect.lat_grid a) /\
  shape H W (TrueEquirect.checker a) /\
  shape H W (TrueEquirect.base a) /\ shape H W (TrueEquirect.shaded a) /\
  shape H W (TrueEquirect.grid_mask a) /\ shape H W (TrueEquirect.img_data a).
Proof.
  intros Ha H W.
  destruct (True_arrays_fields _ _ _ Ha)
    as (x & y & Hx & Hy & Hlon & Hlat & Hlg & Hlag & Hch & Hb & Hs & Hg & Hi).
  apply linspace_inv in Hx as [Hw ->]. apply linspace_inv in Hy as [Hh ->].
  assert (Slon : shape H W (TrueEquirect.lon a)).
  { rewrite Hlon. pose proof (shape_meshgrid
      (List.map (Np.linspace_at (- Np.pi) Np.pi w) (Np.zrange w))
      (List.map (Np.linspace_at (Np.pi / 2) (- Np.pi / 2) h) (Np.zrange h))) as [S _].
    rewrite !length_map, !length_zrange in S. exact S. }
  assert (Slat : shape H W (TrueEquirect.lat a)).
  { rewrite Hlat. pose proof (shape_meshgrid
      (List.map (Np.linspace_at (- Np.pi) Np.pi w) (Np.zrange w))
      (List.map (Np.linspace_at (Np.pi / 2) (- Np.pi / 2) h) (Np.zrange h))) as [_ S].
    rewrite !length_map, !length_zrange in S. exact S. }
  assert (Slg : shape H W (TrueEquirect.lon_grid a)) by (rewrite Hlg; apply shape_amap, Slon).
  assert (Slag : shape H W (TrueEquirect.lat_grid a)) by (rewrite Hlag; apply shape_amap, Slat).
  assert (Sch : shape H W (TrueEquirect.checker a))
    by (rewrite Hch; apply shape_amap2; assumption).
  assert (Sb : shape H W (TrueEquirect.base a)).
  { rewrite Hb. unfold set_blue, set_green, set_red.
    apply shape_amap. apply shape_amap2; [|apply shape_amap, Slat].
    apply shape_amap2; [apply shape_zeros|apply shape_amap, Slon]. }
  assert (Ssh : shape H W (TrueEquirect.shaded a))
    by (rewrite Hs; apply shape_amap2; assumption).
  assert (Sg : shape H W (TrueEquirect.grid_mask a))
    by (rewrite Hg; apply shape_amap2; assumption).
  assert (Si : shape H W (TrueEquirect.img_data a))
    by (rewrite Hi; apply shape_amap2; assumption).
  repeat split; try apply Slon; try apply Slat; try apply Slg;
    try apply Slag; try apply Sch; try apply Sb; try apply Ssh; try apply Sg; try apply Si.
Qed.

(** ** Masked assignment *)

Lemma at2_update_where (m : Array2 bool) (f : rgb -> rgb) (img : Array2 rgb) j i sel p :
  at2 m j i = Some sel -> at2 img j i = Some p ->
  at2 (update_where m f img) j i = Some (if sel then f p else p).
Proof.
  intros Hm Hp. unfold update_where. rewrite at2_amap2, Hm, Hp. reflexivity.
Qed.

Lemma at2_same_shape {A B} h w (a : Array2 A) (b : Array2 B) j i x :
  shape h w a -> shape h w b -> at2 a j i = Some x -> is_Some (at2 b j i).
Proof.
  intros Sa Sb Hx. destruct (at2_Some_lt _ _ _ _ _ _ Sa Hx).
  eapply at2_is_Some; eauto.
Qed.

(** ** The arrays, pixel by pixel *)

Lemma Frame_arrays_at (f t w h : Z) (a : Frame.Arrays) (j i : nat) :
  Frame.arrays f t w h = Ok a ->
  (j < Z.to_nat h)%nat -> (i < Z.to_nat w)%nat ->
  let lm := lon_moved_at f t w i in
  let la := lat_at h j in
  let bp := (Np.astype_uint8 (Frame.red_of lm), Np.astype_uint8 (Frame.green_of la), 100) in
  let sp := if Frame.checker_of lm la then scale_rgb (7 # 10) bp else bp in
  at2 (Frame.lon a) j i = Some (lon_at w i) /\
  at2 (Frame.lat a) j i = Some la /\
  at2 (Frame.lon_moved a) j i = Some lm /\
  at2 (Frame.lon_grid a) j i = Some (Frame.on_grid lm) /\
  at2 (Frame.lat_grid a) j i = Some (Frame.on_grid la) /\
  at2 (Frame.checker a) j i = Some (Frame.checker_of lm la) /\
  at2 (Frame.base a) j i = Some bp /\
  at2 (Frame.shaded a) j i = Some sp /\
  at2 (Frame.grid_mask a) j i = Some (Frame.on_grid lm || Frame.on_grid la) /\
  at2 (Frame.img_data a) j i
    = Some (if Frame.on_grid lm || Frame.on_grid la then white else sp).
Proof.
  intros Ha Hj Hi lm la bp sp.
  destruct (Frame_arrays_fields _ _ _ _ _ Ha)
    as (offset & x & y & Hoff & Hx & Hy & Hlon & Hlat & Hlm & Hlg & Hlag & Hch & Hb & Hs & Hg & Him).
  apply lon_offset_inv in Hoff as [Ht ->].
  apply linspace_inv in Hx as [Hw ->]. apply linspace_inv in Hy as [Hh ->].
  assert (Elon : at2 (Frame.lon a) j i = Some (lon_at w i)).
  { rewrite Hlon, at2_meshgrid_lon by (rewrite length_map, length_zrange; exact Hj).
    apply lookup_linspace, Hi. }
  assert (Elat : at2 (Frame.lat a) j i = Some la).
  { rewrite Hlat, at2_meshgrid_lat by (rewrite length_map, length_zrange; exact Hi).
    apply lookup_linspace, Hj. }
  assert (Elm : at2 (Frame.lon_moved a) j i = Some lm)
    by (rewrite Hlm, at2_amap, Elon; reflexivity).
  assert (Elg : at2 (Frame.lon_grid a) j i = Some (Frame.on_grid lm))
    by (rewrite Hlg, at2_amap, Elm; reflexivity).
  assert (Elag : at2 (Frame.lat_grid a) j i = Some (Frame.on_grid la))
    by (rewrite Hlag, at2_amap, Elat; reflexivity).
  assert (Ech : at2 (Frame.checker a) j i = Some (Frame.checker_of lm la))
    by (rewrite Hch, at2_amap2, Elm, Elat; reflexivity).
  assert (Eb : at2 (Frame.base a) j i = Some bp).
  { rewrite Hb. unfold set_blue, set_green, set_red.
    rewrite at2_amap, !at2_amap2, !at2_amap, Elm, Elat.
    destruct (at2_is_Some _ _ _ j i (shape_zeros h w) Hj Hi) as [z Hz].
    rewrite Hz. unfold at2, zeros in Hz.
    rewrite lookup_replicate_2 in Hz by exact Hj. simpl in Hz.
    rewrite lookup_replicate_2 in Hz by exact Hi. injection Hz as <-. reflexivity. }
  assert (Es : at2 (Frame.shaded a) j i = Some sp)
    by (rewrite Hs; apply (at2_update_where _ _ _ _ _ _ _ Ech Eb)).
  assert (Eg : at2 (Frame.grid_mask a) j i = Some (Frame.on_grid lm || Frame.on_grid la))
    by (rewrite Hg, at2_amap2, Elg, Elag; reflexivity).
  repeat split; try assumption.
  rewrite Him. apply (at2_update_where _ (fun _ => white) _ _ _ _ _ Eg Es).
Qed.

Lemma True_arrays_at (w h : Z) (a : TrueEquirect.Arrays) (j i : nat) :
  TrueEquirect.arrays w h = Ok a ->
  (j < Z.to_nat h)%nat -> (i < Z.to_nat w)%nat ->
  let lo := lon_at w i in
  let la := lat_at h j in
  let bp := (Np.astype_uint8 (TrueEquirect.red_of lo),
             Np.astype_uint8 (TrueEquirect.green_of la), 150) in
  let sp := if TrueEquirect.checker_of lo la then scale_rgb (8 # 10) bp else bp in
  at2 (TrueEquirect.lon a) j i = Some lo /\
  at2 (TrueEquirect.lat a) j i = Some la /\
  at2 (TrueEquirect.lon_grid a) j i = Some (TrueEquirect.on_grid lo) /\
  at2 (TrueEquirect.lat_grid a) j i = Some (TrueEquirect.on_grid la) /\
  at2 (TrueEquirect.checker a) j i = Some (TrueEquirect.checker_of lo la) /\
  at2 (TrueEquirect.base a) j i = Some bp /\
  at2 (TrueEquirect.shaded a) j i = Some sp /\
  at2 (TrueEquirect.grid_mask a) j i
    = Some (TrueEquirect.on_grid lo || TrueEquirect.on_grid la) /\
  at2 (TrueEquirect.img_data a) j i
    = Some (if TrueEquirect.on_grid lo || TrueEquirect.on_grid la then white else sp).
Proof.
  intros Ha Hj Hi lo la bp sp.
  destruct (True_arrays_fields _ _ _ Ha)
    as (x & y & Hx & Hy & Hlon & Hlat & Hlg & Hlag & Hch & Hb & Hs & Hg & Him).
  apply linspace_inv in Hx as [Hw ->]. apply linspace_inv in Hy as [Hh ->].
  assert (Elon : at2 (TrueEquirect.lon a) j i = Some lo).
  { rewrite Hlon, at2_meshgrid_lon by (rewrite length_map, length_zrange; exact Hj).
    apply lookup_linspace, Hi. }
  assert (Elat : at2 (TrueEquirect.lat a) j i = Some la).
  { rewrite Hlat, at2_meshgrid_lat by (rewrite length_map, length_zrange; exact Hi).
    apply lookup_linspace, Hj. }
  assert (Elg : at2 (TrueEquirect.lon_grid a) j i = Some (TrueEquirect.on_grid lo))
    by (rewrite Hlg, at2_amap, Elon; reflexivity).
  assert (Elag : at2 (TrueEquirect.lat_grid a) j i = Some (TrueEquirect.on_grid la))
    by (rewrite Hlag, at2_amap, Elat; reflexivity).
  assert (Ech : at2 (TrueEquirect.checker a) j i = Some (TrueEquirect.checker_of lo la))
    by (rewrite Hch, at2_amap2, Elon, Elat; reflexivity).
  assert (Eb : at2 (TrueEquirect.base a) j i = Some bp).
  { rewrite Hb. unfold set_blue, set_green, set_red.
    rewrite at2_amap, !at2_amap2, !at2_amap, Elon, Elat.
    destruct (at2_is_Some _ _ _ j i (shape_zeros h w) Hj Hi) as [z Hz].
    rewrite Hz. unfold at2, zeros in Hz.
    rewrite lookup_replicate_2 in Hz by exact Hj. simpl in Hz.
    rewrite lookup_replicate_2 in Hz by exact Hi. injection Hz as <-. reflexivity. }
  assert (Es : at2 (TrueEquirect.shaded a) j i = Some sp)
    by (rewrite Hs; apply (at2_update_where _ _ _ _ _ _ _ Ech Eb)).
  assert (Eg : at2 (TrueEquirect.grid_mask a) j i
               = Some (TrueEquirect.on_grid lo || TrueEquirect.on_grid la))
    by (rewrite Hg, at2_amap2, Elg, Elag; reflexivity).
  repeat split; try assumption.
  rewrite Him. apply (at2_update_where _ (fun _ => white) _ _ _ _ _ Eg Es).
Qed.

(** C3. Every pixel that [grid_mask] flags is exactly white in the
    composited array [img_data], whatever its base colour was and whether
    or not the checker darkening had been applied to it: the white
    assignment comes last.  This holds in [generate_frame] and in
    [generate_true_equirectangular]. *)
Theorem grid_line_pixels_are_white :
  (forall f t w h a j i,
      Frame.arrays f t w h = Ok a ->
      at2 (Frame.grid_mask a) j i = Some true ->
      at2 (Frame.img_data a) j i = Some white) /\
  (forall w h a j i,
      TrueEquirect.arrays w h = Ok a ->
      at2 (TrueEquirect.grid_mask a) j i = Some true ->
      at2 (TrueEquirect.img_data a) j i = Some white).
Proof.
  split.
  - intros f t w h a j i Ha Hm.
    destruct (Frame_arrays_shape _ _ _ _ _ Ha)
      as (_ & _ & _ & _ & _ & _ & _ & Ssh & Sg & _).
    destruct (at2_same_shape _ _ _ _ _ _ _ Sg Ssh Hm) as [p Hp].
    destruct (Frame_arrays_fields _ _ _ _ _ Ha)
      as (_ & _ & _ & _ & _ & _ & _ & _ & _ & _ & _ & _ & _ & _ & _ & ->).
    rewrite (at2_update_where _ _ _ _ _ _ _ Hm Hp). reflexivity.
  - intros w h a j i Ha Hm.
    destruct (True_arrays_shape _ _ _ Ha) as (_ & _ & _ & _ & _ & _ & Ssh & Sg & _).
    destruct (at2_same_shape _ _ _ _ _ _ _ Sg Ssh Hm) as [p Hp].
    destruct (True_arrays_fields _ _ _ Ha)
      as (_ & _ & _ & _ & _ & _ & _ & _ & _ & _ & _ & _ & ->).
    rewrite (at2_update_where _ _ _ _ _ _ _ Hm Hp). reflexivity.
Qed.

Lemma grid_line_pixels_are_white_witness :
  (exists a, Frame.arrays 0 150 4 3 = Ok a /\
             at2 (Frame.grid_mask a) 1 2 = Some true /\
             at2 (Frame.img_data a) 1 2 = Some white) /\
  (exists a, TrueEquirect.arrays 4 3 = Ok a /\
             at2 (TrueEquirect.grid_mask a) 1 2 = Some true /\
             at2 (TrueEquirect.img_data a) 1 2 = Some white).
Proof.
  split.
  - eexists. split; [vm_compute; reflexivity|]. split; [vm_compute; reflexivity|].
    eapply (proj1 grid_line_pixels_are_white 0 150 4 3); vm_compute; reflexivity.
  - eexists. split; [vm_compute; reflexivity|]. split; [vm_compute; reflexivity|].
    eapply (proj2 grid_line_pixels_are_white 4 3); vm_compute; reflexivity.
Defined.

(** ** Channel ranges *)

Lemma astype_uint8_range (x : Q) : 0 <= Np.astype_uint8 x <= 255.
Proof.
  unfold Np.astype_uint8.
  pose proof (Z.mod_pos_bound (Np.trunc x) 256 ltac:(lia)). lia.
Qed.

Lemma div255_range (a : Z) : 0 <= a <= 65025 -> 0 <= div255 a <= 255.
Proof.
  intros Ha. unfold div255. rewrite !Z.shiftr_div_pow2 by lia.
  change (2 ^ 8) with 256.
  Z.div_mod_to_equations. lia.
Qed.

Lemma blend8_range (mask in1 in2 : Z) :
  0 <= mask <= 255 -> 0 <= in1 <= 255 -> 0 <= in2 <= 255 ->
  0 <= blend8 mask in1 in2 <= 255.
Proof.
  intros Hm H1 H2. unfold blend8. apply div255_range. nia.
Qed.

Lemma blend_rgb_ok (cov : Z) (ink p : rgb) :
  pixel_ok ink -> pixel_ok p -> pixel_ok (blend_rgb (cov mod 256) ink p).
Proof.
  destruct ink as [[ir ig] ib], p as [[r g] b]. simpl.
  intros (Hir & Hig & Hib) (Hr & Hg & Hb).
  pose proof (Z.mod_pos_bound cov 256 ltac:(lia)).
  repeat split; apply blend8_range; lia.
Qed.

Lemma scale_rgb_ok (k : Q) (p : rgb) : pixel_ok (scale_rgb k p).
Proof.
  destruct p as [[r g] b]. simpl.
  pose proof (astype_uint8_range (inject_Z r * k)).
  pose proof (astype_uint8_range (inject_Z g * k)).
  pose proof (astype_uint8_range (inject_Z b * k)).
  lia.
Qed.

Lemma white_ok : pixel_ok white.
Proof. simpl. lia. Qed.

Lemma all_amap {A B} (P : A -> Prop) (R : B -> Prop) (f : A -> B) (a : Array2 A) :
  (forall x, P x -> R (f x)) ->
  Forall (Forall P) a -> Forall (Forall R) (amap f a).
Proof.
  intros Hf Ha. unfold amap. apply Forall_fmap.
  eapply Forall_impl; [exact Ha|]. intros row Hrow. simpl.
  apply Forall_fmap. eapply Forall_impl; [exact Hrow|]. exact Hf.
Qed.

Lemma all_amap2_l {A B C} (P : A -> Prop) (R : C -> Prop) (f : A -> B -> C)
    (a : Array2 A) (b : Array2 B) :
  (forall x y, P x -> R (f x y)) ->
  Forall (Forall P) a -> Forall (Forall R) (amap2 f a b).
Proof.
  intros Hf Ha. unfold amap2. revert b.
  induction Ha as [|ra a' Hra Ha' IH]; intros [|rb b']; simpl; constructor.
  - clear -Hf Hra. revert rb.
    induction Hra as [|x ra' Hx Hra' IH]; intros [|y rb']; simpl; constructor; auto.
  - apply IH.
Qed.

Lemma all_amap2_r {A B C} (P : B -> Prop) (R : C -> Prop) (f : A -> B -> C)
    (a : Array2 A) (b : Array2 B) :
  (forall x y, P y -> R (f x y)) ->
  Forall (Forall P) b -> Forall (Forall R) (amap2 f a b).
Proof.
  intros Hf Hb. unfold amap2. revert a.
  induction Hb as [|rb b' Hrb Hb' IH]; intros [|ra a']; simpl; constructor.
  - clear -Hf Hrb. revert ra.
    induction Hrb as [|y rb' Hy Hrb' IH]; intros [|x ra']; simpl; constructor; auto.
  - apply IH.
Qed.

Lemma zeros_ok (h w : Z) : Forall (Forall pixel_ok) (zeros h w).
Proof.
  unfold zeros. apply Forall_replicate, Forall_replicate. simpl. lia.
Qed.

Lemma set_red_ok (img : Array2 rgb) (v : Array2 Q) :
  Forall (Forall pixel_ok) img -> Forall (Forall pixel_ok) (set_red img v).
Proof.
  apply all_amap2_l. intros [[r g] b] x (Hr & Hg & Hb). simpl.
  pose proof (astype_uint8_range x). lia.
Qed.

Lemma set_green_ok (img : Array2 rgb) (v : Array2 Q) :
  Forall (Forall pixel_ok) img -> Forall (Forall pixel_ok) (set_green img v).
Proof.
  apply all_amap2_l. intros [[r g] b] x (Hr & Hg & Hb). simpl.
  pose proof (astype_uint8_range x). lia.
Qed.

Lemma set_blue_ok (img : Array2 rgb) (c : Z) :
  Forall (Forall pixel_ok) img -> Forall (Forall pixel_ok) (set_blue img c).
Proof.
  apply all_amap. intros [[r g] b] (Hr & Hg & Hb). simpl.
  pose proof (Z.mod_pos_bound c 256 ltac:(lia)). lia.
Qed.

Lemma update_where_ok (m : Array2 bool) (f : rgb -> rgb) (img : Array2 rgb) :
  (forall p, pixel_ok p -> pixel_ok (f p)) ->
  Forall (Forall pixel_ok) img -> Forall (Forall pixel_ok) (update_where m f img).
Proof.
  intros Hf. apply all_amap2_r. intros [] p Hp; auto.
Qed.

(** The composite of [generate_frame] is a raster of the requested size. *)
Lemma Frame_img_data_raster (f t w h : Z) (a : Frame.Arrays) :
  Frame.arrays f t w h = Ok a ->
  raster (Z.to_nat h) (Z.to_nat w) (Frame.img_data a).
Proof.
  intros Ha. split.
  - apply (Frame_arrays_shape _ _ _ _ _ Ha).
  - destruct (Frame_arrays_fields _ _ _ _ _ Ha)
      as (_ & _ & _ & _ & _ & _ & _ & _ & _ & _ & _ & _ & Hb & Hs & _ & ->).
    apply update_where_ok; [intros; apply white_ok|].
    rewrite Hs. apply update_where_ok; [intros; apply scale_rgb_ok|].
    rewrite Hb. apply set_blue_ok, set_green_ok, set_red_ok, zeros_ok.
Qed.

(** ** Drawing keeps the raster *)

Lemma put_raster (h w : nat) (img : Array2 rgb) (x y : Z) (f : rgb -> rgb) :
  (forall p, pixel_ok p -> pixel_ok (f p)) ->
  raster h w img -> raster h w (put img x y f).
Proof.
  intros Hf [[Hh Hw] Hok]. unfold put.
  destruct ((0 <=? x) && (0 <=? y)); [|repeat split; assumption].
  repeat split.
  - rewrite length_alter. exact Hh.
  - apply Forall_alter; [exact Hw|]. intros row _ Hrow.
    rewrite length_alter. exact Hrow.
  - apply Forall_alter; [exact Hok|]. intros row _ Hrow.
    apply Forall_alter; [exact Hrow|]. intros p _. apply Hf.
Qed.

Lemma foldl_raster {A} (h w : nat) (step : Array2 rgb -> A -> Array2 rgb) (l : list A) :
  (forall img x, raster h w img -> raster h w (step img x)) ->
  forall img, raster h w img -> raster h w (foldl step img l).
Proof.
  intros Hstep. induction l as [|x l IH]; intros img Himg; simpl; [exact Himg|].
  apply IH, Hstep, Himg.
Qed.

Section RendererProperties.

Variable Font : Type.
Variable text_mask : Font -> string -> string -> list (Z * Z * Z).
Variable ellipse_fill : Z * Z * Z * Z -> list (Z * Z).
Variable ellipse_outline : Z * Z * Z * Z -> list (Z * Z).
Variable np_sin : Q -> Q.

Lemma draw_text_raster (h w : nat) (img : Array2 rgb) xy text ink font anchor :
  pixel_ok ink -> raster h w img ->
  raster h w (Frame.draw_text Font text_mask img xy text ink font anchor).
Proof.
  intros Hink Himg. unfold Frame.draw_text.
  apply foldl_raster; [|exact Himg].
  intros im [[dx dy] cov] Him. apply put_raster; [|exact Him].
  intros p Hp. apply blend_rgb_ok; assumption.
Qed.

Lemma draw_ellipse_raster (h w : nat) (img : Array2 rgb) box fill outline :
  pixel_ok fill -> pixel_ok outline -> raster h w img ->
  raster h w (Frame.draw_ellipse ellipse_fill ellipse_outline img box fill outline).
Proof.
  intros Hfill Hout Himg. unfold Frame.draw_ellipse.
  apply foldl_raster.
  - intros im [x y] Him. apply put_raster; [intros; exact Hout|exact Him].
  - apply foldl_raster; [|exact Himg].
    intros im [x y] Him. apply put_raster; [intros; exact Hfill|exact Him].
Qed.

Lemma draw_labels_raster (h w : nat) (img : Array2 rgb) offset width height font :
  raster h w img ->
  raster h w (Frame.draw_labels Font text_mask img offset width height font).
Proof.
  intros Himg. unfold Frame.draw_labels.
  apply foldl_raster; [|exact Himg].
  intros im lo_deg Him. apply foldl_raster; [|exact Him].
  intros im' la_deg Him'. apply draw_text_raster; [apply white_ok|exact Him'].
Qed.

(** The overlay cannot fail once the arrays are built and the width is
    not zero; the font fallback absorbs every font failure. *)
Lemma generate_frame_returns (env : Frame.FontEnv Font) (f t w h : Z) :
  t <> 0 -> 0 < w -> 0 <= h ->
  exists img,
    Frame.generate_frame Font text_mask ellipse_fill ellipse_outline np_sin env f t w h
      = Ok img /\
    raster (Z.to_nat h) (Z.to_nat w) img.
Proof.
  intros Ht Hw Hh.
  destruct (Frame_arrays_total f t w h Ht ltac:(lia) Hh) as [a Ha].
  pose proof (Frame_img_data_raster _ _ _ _ _ Ha) as Himg.
  unfold Frame.generate_frame, Frame.ball_x.
  unfold Frame.arrays, Frame.lon_offset in *.
  destruct (Z.eqb_spec t 0); [contradiction|]. simpl in Ha |- *. rewrite Ha. simpl.
  destruct (Z.eqb_spec w 0); [lia|]. simpl.
  destruct (Frame.load_fonts Font env) as [font_large font_small].
  eexists. split; [reflexivity|].
  apply draw_ellipse_raster; [simpl; lia|apply white_ok|].
  apply draw_text_raster; [simpl; lia|].
  apply draw_text_raster; [apply white_ok|].
  apply draw_text_raster; [apply white_ok|].
  apply draw_labels_raster. exact Himg.
Qed.




End RendererProperties.




(** ** The checkerboard *)






(** ** Remainders and grid lines *)

Lemma ltb_lt (x y : Q) : Np.ltb x y = true <-> (x < y)%Q.
Proof.
  unfold Np.ltb. rewrite negb_true_iff. split.
  - intros H. apply Qnot_le_lt. intros Hle.
    apply Qle_bool_iff in Hle. congruence.
  - intros H. destruct (Qle_bool y x) eqn:E; [|reflexivity].
    apply Qle_bool_iff in E. apply Qlt_not_le in H. contradiction.
Qed.

Lemma Qfloor_unique (x : Q) (k : Z) :
  (inject_Z k <= x)%Q -> (x < inject_Z (k + 1))%Q -> Qfloor x = k.
Proof.
  intros Hlo Hhi.
  pose proof (Qfloor_le x) as Hfl. pose proof (Qlt_floor x) as Hfu.
  assert (H1 : (inject_Z (Qfloor x) < inject_Z (k + 1))%Q)
    by (eapply Qle_lt_trans; eassumption).
  assert (H2 : (inject_Z k < inject_Z (Qfloor x + 1))%Q)
    by (eapply Qle_lt_trans; eassumption).
  rewrite <- Zlt_Qlt in H1, H2. lia.
Qed.

(** [x % m] for a positive [m]: the remainder lies in [0, m). *)
Lemma mod_range (x m : Q) : (0 < m)%Q -> (0 <= Np.mod_ x m /\ Np.mod_ x m < m)%Q.
Proof.
  intros Hm. unfold Np.mod_.
  assert (Hx : (x == m * (x / m))%Q)
    by (symmetry; apply Qmult_div_r; intros E; rewrite E in Hm; discriminate).
  pose proof (Qfloor_le (x / m)) as Hfl. pose proof (Qlt_floor (x / m)) as Hfu.
  rewrite inject_Z_plus in Hfu. change (inject_Z 1) with 1%Q in Hfu.
  set (q := (x / m)%Q) in *. set (F := inject_Z (Qfloor q)) in *.
  assert (H0 : (0 <= m * (q - F))%Q) by (apply Qmult_le_0_compat; lra).
  assert (H1 : (0 < m * (F + 1 - q))%Q) by (apply Qmult_lt_0_compat; lra).
  split; lra.
Qed.

(** The remainder is the distance to the multiple just below. *)
Lemma mod_of_multiple_below (x m : Q) (k : Z) :
  (0 < m)%Q -> (0 <= x - inject_Z k * m)%Q -> (x - inject_Z k * m < m)%Q ->
  (Np.mod_ x m == x - inject_Z k * m)%Q.
Proof.
  intros Hm Hlo Hhi. unfold Np.mod_.
  assert (Hx : (x == m * (x / m))%Q)
    by (symmetry; apply Qmult_div_r; intros E; rewrite E in Hm; discriminate).
  set (q := (x / m)%Q) in *.
  assert (Hq : Qfloor q = k).
  { apply Qfloor_unique.
    - assert (H0 : (0 <= m * (q - inject_Z k))%Q) by lra.
      destruct (Qlt_le_dec q (inject_Z k)) as [Hlt|Hge]; [|exact Hge].
      assert (H1 : (0 < m * (inject_Z k - q))%Q) by (apply Qmult_lt_0_compat; lra).
      lra.
    - rewrite inject_Z_plus. change (inject_Z 1) with 1%Q.
      destruct (Qlt_le_dec q (inject_Z k + 1)) as [Hlt|Hge]; [exact Hlt|].
      assert (H1 : (0 <= m * (q - (inject_Z k + 1)))%Q)
        by (apply Qmult_le_0_compat; lra).
      lra. }
  rewrite Hq. ring.
Qed.

Section GridBand.

(** A grid of spacing [s] with a tolerance smaller than half the spacing,
    as both generators have it. *)
Variables s tol : Q.
Hypothesis s_pos : (0 < s)%Q.
Hypothesis tol_small : (2 * tol < s)%Q.

(** The test of [generate_frame], [np.abs(v % s) < tol], sees the
    multiples of the spacing from above only. *)
Lemma band_above (v : Q) :
  Np.ltb (Np.abs (Np.mod_ v s)) tol = true <->
  exists k : Z, (0 <= v - inject_Z k * s)%Q /\ (v - inject_Z k * s < tol)%Q.
Proof.
  rewrite ltb_lt. unfold Np.abs.
  pose proof (mod_range v s s_pos) as [Hlo Hhi].
  split.
  - intros H. rewrite Qabs_pos in H by exact Hlo.
    exists (Qfloor (v / s)). unfold Np.mod_ in *. split; lra.
  - intros (k & Hk0 & Hk1).
    rewrite (mod_of_multiple_below v s k s_pos Hk0) by lra.
    rewrite Qabs_pos by exact Hk0. exact Hk1.
Qed.

(** The second test of [generate_true_equirectangular],
    [np.abs((v + s/2) % s - s/2) < tol], sees them from both sides. *)
Lemma band_both_sides (v : Q) :
  Np.ltb (Np.abs (Np.mod_ v s)) tol
  || Np.ltb (Np.abs (Np.mod_ (v + s / 2) s - s / 2)) tol = true <->
  exists k : Z, (dist_to_multiple s v k < tol)%Q.
Proof.
  unfold dist_to_multiple. rewrite orb_true_iff. split.
  - intros [H|H].
    + apply band_above in H as (k & Hk0 & Hk1). exists k.
      rewrite Qabs_pos by exact Hk0. exact Hk1.
    + apply ltb_lt in H. unfold Np.abs in H.
      exists (Qfloor ((v + s / 2) / s)).
      unfold Np.mod_ in H.
      assert (E : (v + s / 2 - s * inject_Z (Qfloor ((v + s / 2) / s)) - s / 2
                   == v - inject_Z (Qfloor ((v + s / 2) / s)) * s)%Q) by field.
      rewrite E in H. exact H.
  - intros (k & Hk). right. apply ltb_lt. unfold Np.abs.
    apply Qabs_Qlt_condition in Hk as [Hk0 Hk1].
    assert (Hhalf : (2 * (s / 2) == s)%Q) by (apply Qmult_div_r; discriminate).
    assert (E : (Np.mod_ (v + s / 2) s == v + s / 2 - inject_Z k * s)%Q)
      by (apply mod_of_multiple_below; [exact s_pos| |]; lra).
    rewrite E. apply Qabs_Qlt_condition. split; lra.
Qed.

End GridBand.

Lemma Frame_spacing_facts :
  (0 < Frame.grid_spacing)%Q /\ (2 * Frame.tolerance < Frame.grid_spacing)%Q.
Proof. split; reflexivity. Qed.

Lemma True_spacing_facts :
  (0 < TrueEquirect.grid_spacing)%Q /\
  (2 * TrueEquirect.tolerance < TrueEquirect.grid_spacing)%Q.
Proof. split; reflexivity. Qed.

(** What each generator flags as a grid coordinate: [generate_frame] the
    band just above each multiple of the spacing, and
    [generate_true_equirectangular] the band on both sides of it. *)
Lemma on_grid_bands (v : Q) :
  (Frame.on_grid v = true <->
   exists k : Z, (0 <= v - inject_Z k * Frame.grid_spacing)%Q /\
                 (v - inject_Z k * Frame.grid_spacing < Frame.tolerance)%Q) /\
  (TrueEquirect.on_grid v = true <->
   exists k : Z, (dist_to_multiple TrueEquirect.grid_spacing v k < TrueEquirect.tolerance)%Q).
Proof.
  split.
  - apply band_above; apply Frame_spacing_facts.
  - apply band_both_sides; apply True_spacing_facts.
Qed.

(** C4, evaluated on [generate_frame(0, 150, 2048, 1024)] at row 1,
    column 1023.  The rotated longitude of that pixel is about 0.0015
    below the multiple 0 of the spacing and its latitude about 0.0031
    below the multiple 3 (the pole), both well inside the tolerance 0.015,
    and yet [generate_frame] does not flag the pixel and leaves it
    coloured, while its mirror image in column 1024, as far above the
    multiple, is flagged.  [generate_true_equirectangular] flags the same
    pixel. *)
Theorem generate_frame_band_misses_from_below :
  exists a lm la,
    Frame.arrays 0 150 2048 1024 = Ok a /\
    at2 (Frame.lon_moved a) 1 1023 = Some lm /\
    at2 (Frame.lat a) 1 1023 = Some la /\
    (lm < 0)%Q /\
    (dist_to_multiple Frame.grid_spacing lm 0 < Frame.tolerance)%Q /\
    (dist_to_multiple Frame.grid_spacing la 3 < Frame.tolerance)%Q /\
    at2 (Frame.grid_mask a) 1 1023 = Some false /\
    at2 (Frame.img_data a) 1 1023 = Some (124, 199, 100) /\
    at2 (Frame.grid_mask a) 1 1024 = Some true /\
    exists a', TrueEquirect.arrays 2048 1024 = Ok a' /\
               at2 (TrueEquirect.grid_mask a') 1 1023 = Some true.
Proof.
  destruct (Frame_arrays_total 0 150 2048 1024) as [a Ha]; [lia|lia|lia|].
  destruct (True_arrays_total 2048 1024) as [a' Ha']; [lia|lia|].
  destruct (Frame_arrays_at _ _ _ _ _ 1 1023 Ha)
    as (_ & Ela & Elm & _ & _ & _ & _ & _ & Eg & Ei); [lia|lia|].
  destruct (Frame_arrays_at _ _ _ _ _ 1 1024 Ha)
    as (_ & _ & _ & _ & _ & _ & _ & _ & Eg' & _); [lia|lia|].
  destruct (True_arrays_at _ _ _ 1 1023 Ha')
    as (_ & _ & _ & _ & _ & _ & _ & Eg'' & _); [lia|lia|].
  exists a, (lon_moved_at 0 150 2048 1023), (lat_at 1024 1).
  split; [exact Ha|]. split; [exact Elm|]. split; [exact Ela|].
  split; [vm_compute; reflexivity|].
  split; [vm_compute; reflexivity|].
  split; [vm_compute; reflexivity|].
  split; [rewrite Eg; vm_compute; reflexivity|].
  split; [rewrite Ei; vm_compute; reflexivity|].
  split; [rewrite Eg'; vm_compute; reflexivity|].
  exists a'. split; [exact Ha'|].
  rewrite Eg''. vm_compute. reflexivity.
Qed.

(** ** One full turn of the rotation *)









Lemma trunc_spec (x : Q) :
  Np.trunc x = if Qle_bool 0 x then Qfloor x else (- Qfloor (- x))%Z.
Proof.
  destruct x as [n d]. unfold Np.trunc, Qle_bool, Qfloor, Qopp. simpl.
  rewrite Z.mul_1_r. change (0 * Z.pos d) with 0.
  destruct (Z.leb_spec 0 n) as [Hn|Hn].
  - apply Z.quot_div_nonneg; lia.
  - rewrite <- (Z.opp_involutive n) at 1.
    rewrite Z.quot_opp_l by lia. f_equal. apply Z.quot_div_nonneg; lia.
Qed.









(** ** The segmentation endpoint *)

Section EndpointProperties.

Variable bytes : Type.
Variable b64decode : Segment.Json -> Result bytes.
Variable image_open_rgb : bytes -> Result (Array2 rgb).
Variable grounding_dino : Array2 rgb -> string -> Segment.Json -> Result Segment.Detections.
Variable Predictor : Type.
Variable sam2_set_image : Array2 rgb -> Result Predictor.
Variable sam2_predict : Predictor -> Segment.Box -> Result (Array2 Q).
Variable png_base64 : Array2 rgba -> string.
Variable visualization :
  Array2 rgb -> list (Array2 bool) -> Segment.Detections -> Result string.
Variable str_exn : Exn -> string.

Local Abbreviation segment :=
  (Segment.segment bytes b64decode image_open_rgb grounding_dino Predictor
                   sam2_set_image sam2_predict png_base64 visualization str_exn).

Local Abbreviation segment_objects_internal :=
  (Segment.segment_objects_internal bytes image_open_rgb grounding_dino Predictor
                   sam2_set_image sam2_predict png_base64 visualization).

(** The loop over the boxes: one [predict] per box, in order. *)
Lemma for_each_predict (p : Predictor) (boxes : list Segment.Box) (masks : list (Array2 Q))
    (tr : list Segment.Event) :
  Forall2 (fun box m => sam2_predict p box = Ok m) boxes masks ->
  Segment.for_each
    (fun box => Segment.invoke (Segment.Sam2Predict box) (sam2_predict p box)) boxes tr
  = (Ok masks, tr ++ List.map Segment.Sam2Predict boxes).
Proof.
  intros H. revert tr.
  induction H as [|box m boxes masks Hm _ IH]; intros tr; simpl.
  - rewrite app_nil_r. reflexivity.
  - unfold mbind, Segment.M_bind, Segment.invoke at 1. rewrite Hm.
    rewrite IH. unfold mret, Segment.M_ret. rewrite <- app_assoc. reflexivity.
Qed.

(** The run of [segment_objects_internal] up to the masks, when every
    collaborator succeeds. *)
Lemma segment_objects_internal_run image_bytes prompt threshold vis_flag image dets p masks tr :
  image_open_rgb image_bytes = Ok image ->
  grounding_dino image (Segment.format_prompt prompt) threshold = Ok dets ->
  sam2_set_image image = Ok p ->
  Forall2 (fun box m => sam2_predict p box = Ok m) (Segment.det_boxes dets) masks ->
  let tr' := tr ++ [Segment.GroundingDino (Segment.format_prompt prompt); Segment.Sam2SetImage]
                ++ List.map Segment.Sam2Predict (Segment.det_boxes dets) in
  let result : gmap string Segment.Json :=
    <[ "labels" := Segment.JList (List.map Segment.JStr (Segment.det_labels dets)) ]>
    (<[ "scores" := Segment.JList (List.map Segment.JNum (Segment.det_scores dets)) ]>
    (<[ "boxes" := Segment.JList (List.map Segment.json_of_box (Segment.det_boxes dets)) ]>
    (<[ "num_objects" := Segment.JInt (Z.of_nat (length masks)) ]> ∅))) in
  segment_objects_internal image_bytes (Segment.JStr prompt) threshold vis_flag tr
  = match List.map Segment.astype_bool masks with
    | [] => (Ok result, tr')
    | combined_mask :: _ =>
        match Segment.cutout image combined_mask with
        | Ok masked_rgba =>
            let result' :=
              <[ "masked_image_base64" := Segment.JStr (png_base64 masked_rgba) ]> result in
            if vis_flag then
              match visualization image (List.map Segment.astype_bool masks) dets with
              | Ok vis =>
                  (Ok (<[ "visualization_base64" := Segment.JStr vis ]> result'), tr')
              | Raise e => (Raise e, tr')
              end
            else (Ok result', tr')
        | Raise e => (Raise e, tr')
        end
    end.
Proof.
  intros Himg Hdet Hset Hmasks tr' result.
  unfold Segment.segment_objects_internal.
  unfold mbind, Segment.M_bind, Segment.lift, Segment.invoke.
  rewrite Himg, Hdet, Hset.
  rewrite (for_each_predict p _ masks _ Hmasks).
  rewrite length_map.
  assert (Etr : (tr ++ [Segment.GroundingDino (Segment.format_prompt prompt)])
                  ++ [Segment.Sam2SetImage]
                  ++ List.map Segment.Sam2Predict (Segment.det_boxes dets) = tr')
    by (unfold tr'; rewrite <- !app_assoc; reflexivity).
  rewrite <- app_assoc in Etr. simpl in Etr.
  rewrite <- !app_assoc. simpl. rewrite Etr.
  destruct (List.map Segment.astype_bool masks) as [|m0 ms] eqn:Em; [reflexivity|].
  destruct (Segment.cutout image m0) as [rgba_img|e]; [|reflexivity].
  destruct vis_flag; [|reflexivity].
  destruct (visualization image (m0 :: ms) dets) as [vis|e]; reflexivity.
Qed.

(** C8, as the code has it. A request without ['prompt'] is answered with
    status 400 and without any call into the models: the trace of model
    calls is returned unchanged.  The message names the prompt when the
    request carries ['image_base64'], which is checked first, and names
    the image otherwise. *)
Theorem segment_missing_prompt (data : gmap string Segment.Json) (tr : list Segment.Event) :
  data !! "prompt" = None ->
  segment data tr
  = (Ok (Segment.BodyStatus
           (Segment.error_body
              (match data !! "image_base64" with
               | Some _ => "Missing 'prompt' field"
               | None => "Missing 'image_base64' field"
               end)) 400), tr).
Proof.
  intros Hp. unfold Segment.segment, Segment.segment_body.
  destruct (data !! "image_base64") as [img|]; [rewrite Hp|]; reflexivity.
Qed.




End EndpointProperties.

(** The empty request has no prompt, and its reply names the image. *)
Lemma missing_prompt_always_reported_fails :
  ~ missing_prompt_always_reported demo_segment.
Proof.
  intros H. specialize (H ∅ [] eq_refl).
  apply (f_equal (fun r => reply_error (fst r))) in H.
  vm_compute in H. discriminate H.
Qed.

Lemma segment_missing_prompt_witness :
  ({[ "image_base64" := Segment.JStr "aGk=" ]} : gmap string Segment.Json) !! "prompt" = None /\
  demo_segment {[ "image_base64" := Segment.JStr "aGk=" ]} []
  = (Ok (Segment.BodyStatus (Segment.error_body "Missing 'prompt' field") 400), []).
Proof.
  split; [reflexivity|].
  exact (segment_missing_prompt (Array2 rgb) demo_b64decode (fun b => Ok b) demo_detector
           unit (fun _ => Ok tt) demo_predict (fun _ => "PNG") (fun _ _ _ => Ok "VIS")
           demo_str_exn {[ "image_base64" := Segment.JStr "aGk=" ]} [] eq_refl).
Defined.



(** * Further properties of the renderer *)

(** ** The coordinate grid *)

Lemma linspace_at_first (start stop : Q) (num : Z) :
  0 < num -> (Np.linspace_at start stop num 0 == start)%Q.
Proof.
  intros Hn. unfold Np.linspace_at.
  destruct (Z.ltb_spec 0 (num - 1)) as [Hd|Hd].
  - destruct (Z.eqb_spec 0 (num - 1)); [lia|]. change (inject_Z 0) with 0%Q. ring.
  - change (inject_Z 0) with 0%Q. ring.
Qed.

Lemma linspace_at_last (start stop : Q) (num : Z) :
  1 < num -> Np.linspace_at start stop num (num - 1) = stop.
Proof.
  intros Hn. unfold Np.linspace_at.
  destruct (Z.ltb_spec 0 (num - 1)) as [Hd|Hd]; [|lia].
  rewrite Z.eqb_refl. reflexivity.
Qed.

(** Every sample is [start + t * (stop - start)] for some [t] in [0, 1]. *)
Lemma linspace_at_convex (start stop : Q) (num i : Z) :
  0 <= i < num ->
  exists t : Q, (0 <= t)%Q /\ (t <= 1)%Q /\
    (Np.linspace_at start stop num i == start + t * (stop - start))%Q.
Proof.
  intros Hi. unfold Np.linspace_at.
  destruct (Z.ltb_spec 0 (num - 1)) as [Hd|Hd].
  - destruct (Z.eqb_spec i (num - 1)) as [E|E].
    + exists 1%Q. repeat split; [lra|lra|ring].
    + assert (Hq : (0 < inject_Z (num - 1))%Q)
        by (change 0%Q with (inject_Z 0); rewrite <- Zlt_Qlt; lia).
      exists (inject_Z i / inject_Z (num - 1))%Q. repeat split.
      * apply Qle_shift_div_l; [exact Hq|].
        change 0%Q with (inject_Z 0). rewrite <- inject_Z_mult, <- Zle_Qle. lia.
      * apply Qle_shift_div_r; [exact Hq|].
        rewrite Qmult_1_l, <- Zle_Qle. lia.
      * field. intros E0. rewrite E0 in Hq. discriminate.
  - assert (i = 0) by lia. subst i. exists 0%Q.
    repeat split; [lra|lra|]. change (inject_Z 0) with 0%Q. ring.
Qed.

Lemma linspace_at_increasing_range (start stop : Q) (num i : Z) :
  (start <= stop)%Q -> 0 <= i < num ->
  (start <= Np.linspace_at start stop num i)%Q /\
  (Np.linspace_at start stop num i <= stop)%Q.
Proof.
  intros Hs Hi.
  destruct (linspace_at_convex start stop num i Hi) as (t & Ht0 & Ht1 & E).
  assert (H0 : (0 <= t * (stop - start))%Q) by (apply Qmult_le_0_compat; lra).
  assert (H1 : (0 <= (1 - t) * (stop - start))%Q) by (apply Qmult_le_0_compat; lra).
  split; lra.
Qed.

Lemma linspace_at_decreasing_range (start stop : Q) (num i : Z) :
  (stop <= start)%Q -> 0 <= i < num ->
  (stop <= Np.linspace_at start stop num i)%Q /\
  (Np.linspace_at start stop num i <= start)%Q.
Proof.
  intros Hs Hi.
  destruct (linspace_at_convex start stop num i Hi) as (t & Ht0 & Ht1 & E).
  assert (H0 : (0 <= t * (start - stop))%Q) by (apply Qmult_le_0_compat; lra).
  assert (H1 : (0 <= (1 - t) * (start - stop))%Q) by (apply Qmult_le_0_compat; lra).
  split; lra.
Qed.

Lemma lon_at_range (w : Z) (i : nat) :
  (i < Z.to_nat w)%nat -> (- Np.pi <= lon_at w i)%Q /\ (lon_at w i <= Np.pi)%Q.
Proof.
  intros Hi. unfold lon_at.
  apply linspace_at_increasing_range; [reflexivity || (vm_compute; discriminate)|lia].
Qed.

Lemma lat_at_range (h : Z) (j : nat) :
  (j < Z.to_nat h)%nat -> (- Np.pi / 2 <= lat_at h j)%Q /\ (lat_at h j <= Np.pi / 2)%Q.
Proof.
  intros Hj. unfold lat_at.
  apply linspace_at_decreasing_range; [vm_compute; discriminate|lia].
Qed.

(** X1. In [generate_frame] every pixel has a longitude in [-pi, pi] and a
    latitude in [-pi/2, pi/2]; column 0 is the meridian -pi and the last
    column the meridian pi, row 0 is the north pole and the last row the
    south pole. *)
Theorem coordinate_grid (f t w h : Z) (a : Frame.Arrays) (j i : nat) (lo la : Q) :
  Frame.arrays f t w h = Ok a ->
  at2 (Frame.lon a) j i = Some lo ->
  at2 (Frame.lat a) j i = Some la ->
  ((- Np.pi <= lo)%Q /\ (lo <= Np.pi)%Q) /\
  ((- Np.pi / 2 <= la)%Q /\ (la <= Np.pi / 2)%Q) /\
  (i = 0%nat -> (lo == - Np.pi)%Q) /\
  (1 < w -> Z.of_nat i = w - 1 -> (lo == Np.pi)%Q) /\
  (j = 0%nat -> (la == Np.pi / 2)%Q) /\
  (1 < h -> Z.of_nat j = h - 1 -> (la == - Np.pi / 2)%Q).
Proof.
  intros Ha Hlo Hla.
  destruct (Frame_arrays_shape _ _ _ _ _ Ha) as (Slon & _).
  destruct (at2_Some_lt _ _ _ _ _ _ Slon Hlo) as [Hj Hi].
  destruct (Frame_arrays_at _ _ _ _ _ j i Ha Hj Hi) as (Elo & Ela & _).
  rewrite Hlo in Elo. injection Elo as ->. rewrite Hla in Ela. injection Ela as ->.
  split; [apply lon_at_range, Hi|]. split; [apply lat_at_range, Hj|].
  repeat split.
  - intros ->. unfold lon_at. apply linspace_at_first. lia.
  - intros Hw Ei. unfold lon_at. rewrite Ei, linspace_at_last by exact Hw. reflexivity.
  - intros ->. unfold lat_at. apply linspace_at_first. lia.
  - intros Hh Ej. unfold lat_at. rewrite Ej, linspace_at_last by exact Hh. reflexivity.
Qed.

Lemma coordinate_grid_witness :
  exists a lo la,
    Frame.arrays 0 150 6 4 = Ok a /\
    at2 (Frame.lon a) 3 5 = Some lo /\ at2 (Frame.lat a) 3 5 = Some la /\
    (lo == Np.pi)%Q /\ (la == - Np.pi / 2)%Q.
Proof.
  do 3 eexists.
  split; [vm_compute; reflexivity|]. split; [vm_compute; reflexivity|].
  split; [vm_compute; reflexivity|].
  pose proof (coordinate_grid 0 150 6 4 _ 3 5 _ _
                ltac:(vm_compute; reflexivity) ltac:(vm_compute; reflexivity)
                ltac:(vm_compute; reflexivity)) as (_ & _ & _ & Hlast & _ & Hsouth).
  split; [apply Hlast; reflexivity || lia | apply Hsouth; reflexivity || lia].
Defined.

(** ** Colours *)








(** X3. In the composite of either generator a pixel is white exactly
    when it is flagged as a grid line: the blue channel of every other
    pixel is 100 or 70 in [generate_frame] and 150 or 120 in
    [generate_true_equirectangular], so no unflagged pixel is white. *)
Theorem white_only_on_grid_lines :
  (forall f t w h a j i,
      Frame.arrays f t w h = Ok a ->
      (j < Z.to_nat h)%nat -> (i < Z.to_nat w)%nat ->
      (at2 (Frame.img_data a) j i = Some white <->
       at2 (Frame.grid_mask a) j i = Some true) /\
      exists r g b, at2 (Frame.img_data a) j i = Some (r, g, b) /\
                    (b = 255 \/ b = 100 \/ b = 70)) /\
  (forall w h a j i,
      TrueEquirect.arrays w h = Ok a ->
      (j < Z.to_nat h)%nat -> (i < Z.to_nat w)%nat ->
      (at2 (TrueEquirect.img_data a) j i = Some white <->
       at2 (TrueEquirect.grid_mask a) j i = Some true) /\
      exists r g b, at2 (TrueEquirect.img_data a) j i = Some (r, g, b) /\
                    (b = 255 \/ b = 150 \/ b = 120)).
Proof.
  split.
  - intros f t w h a j i Ha Hj Hi.
    destruct (Frame_arrays_at _ _ _ _ _ j i Ha Hj Hi)
      as (_ & _ & _ & _ & _ & _ & _ & _ & Eg & Ei).
    rewrite Eg, Ei.
    destruct (Frame.on_grid (lon_moved_at f t w i) || Frame.on_grid (lat_at h j)).
    + split; [split; reflexivity|]. exists 255, 255, 255. split; [reflexivity|lia].
    + destruct (Frame.checker_of (lon_moved_at f t w i) (lat_at h j)).
      * split; [split; intros E; discriminate E|].
        do 3 eexists. split; [reflexivity|]. right. right. reflexivity.
      * split; [split; intros E; discriminate E|].
        do 3 eexists. split; [reflexivity|]. right. left. reflexivity.
  - intros w h a j i Ha Hj Hi.
    destruct (True_arrays_at _ _ _ j i Ha Hj Hi)
      as (_ & _ & _ & _ & _ & _ & _ & Eg & Ei).
    rewrite Eg, Ei.
    destruct (TrueEquirect.on_grid (lon_at w i) || TrueEquirect.on_grid (lat_at h j)).
    + split; [split; reflexivity|]. exists 255, 255, 255. split; [reflexivity|lia].
    + destruct (TrueEquirect.checker_of (lon_at w i) (lat_at h j)).
      * split; [split; intros E; discriminate E|].
        do 3 eexists. split; [reflexivity|]. right. right. reflexivity.
      * split; [split; intros E; discriminate E|].
        do 3 eexists. split; [reflexivity|]. right. left. reflexivity.
Qed.

Lemma white_only_on_grid_lines_witness :
  exists a,
    Frame.arrays 0 150 2048 1024 = Ok a /\
    (at2 (Frame.img_data a) 1 1023 = Some white <->
     at2 (Frame.grid_mask a) 1 1023 = Some true).
Proof.
  destruct (Frame_arrays_total 0 150 2048 1024) as [a Ha]; [lia|lia|lia|].
  exists a. split; [exact Ha|].
  apply (proj1 white_only_on_grid_lines 0 150 2048 1024 a 1%nat 1023%nat Ha); lia.
Defined.

(** ** Rotation *)











(** ** Labels *)







(** ** Sizes that are not valid *)

Section RendererEdgeCases.

Variable Font : Type.
Variable text_mask : Font -> string -> string -> list (Z * Z * Z).
Variable ellipse_fill : Z * Z * Z * Z -> list (Z * Z).
Variable ellipse_outline : Z * Z * Z * Z -> list (Z * Z).
Variable np_sin : Q -> Q.

(** X9. A negative width or height is not validated either: with a
    non-zero [total_frames] the call raises the [ValueError] of
    [np.linspace] and returns no image, whatever the fonts. *)
Theorem generate_frame_negative_size (env : Frame.FontEnv Font) (f t w h : Z) :
  t <> 0 -> w < 0 \/ h < 0 ->
  Frame.generate_frame Font text_mask ellipse_fill ellipse_outline np_sin env f t w h
  = Raise ValueError.
Proof.
  intros Ht Hneg. unfold Frame.generate_frame, Frame.lon_offset, Frame.arrays_from.
  destruct (Z.eqb_spec t 0); [contradiction|]. simpl.
  unfold Np.linspace.
  destruct (Z.ltb_spec w 0) as [Hw|Hw]; [reflexivity|]. simpl.
  destruct (Z.ltb_spec h 0) as [Hh|Hh]; [reflexivity|lia].
Qed.

End RendererEdgeCases.

Lemma generate_frame_negative_size_witness :
  demo_generate_frame no_fonts 0 150 2048 (-1) = Raise ValueError.
Proof.
  apply (generate_frame_negative_size Z demo_text_mask demo_ellipse demo_ellipse demo_sin
           no_fonts 0 150 2048 (-1)); lia.
Defined.

(** * Further properties of the segmentation endpoint *)

Section EndpointErrors.

Variable bytes : Type.
Variable b64decode : Segment.Json -> Result bytes.
Variable image_open_rgb : bytes -> Result (Array2 rgb).
Variable grounding_dino : Array2 rgb -> string -> Segment.Json -> Result Segment.Detections.
Variable Predictor : Type.
Variable sam2_set_image : Array2 rgb -> Result Predictor.
Variable sam2_predict : Predictor -> Segment.Box -> Result (Array2 Q).
Variable png_base64 : Array2 rgba -> string.
Variable visualization :
  Array2 rgb -> list (Array2 bool) -> Segment.Detections -> Result string.
Variable str_exn : Exn -> string.

Local Abbreviation segment :=
  (Segment.segment bytes b64decode image_open_rgb grounding_dino Predictor
                   sam2_set_image sam2_predict png_base64 visualization str_exn).

Local Abbreviation internal :=
  (Segment.segment_objects_internal bytes image_open_rgb grounding_dino Predictor
                   sam2_set_image sam2_predict png_base64 visualization).

Local Abbreviation error_reply e code :=
  (Ok (Segment.BodyStatus (Segment.error_body e) code)).

(** The loop over the boxes only adds to the record of model calls. *)
Lemma for_each_predict_extends (p : Predictor) (boxes : list Segment.Box)
    (tr : list Segment.Event) :
  exists r called,
    Segment.for_each
      (fun box => Segment.invoke (Segment.Sam2Predict box) (sam2_predict p box)) boxes tr
    = (r, tr ++ List.map Segment.Sam2Predict called) /\
    called `prefix_of` boxes /\
    (forall masks, r = Ok masks -> called = boxes /\ length masks = length boxes).
Proof.
  revert tr. induction boxes as [|box boxes IH]; intros tr; simpl.
  - exists (Ok []), []. rewrite app_nil_r.
    split; [reflexivity|]. split; [reflexivity|].
    intros masks0 [= <-]. split; reflexivity.
  - unfold mbind, Segment.M_bind, Segment.invoke at 1.
    destruct (sam2_predict p box) as [m|e].
    + destruct (IH (tr ++ [Segment.Sam2Predict box])) as (r & called & Hr & Hpre & Hok).
      rewrite Hr. destruct r as [masks|e].
      * exists (Ok (m :: masks)), (box :: called). simpl.
        rewrite <- app_assoc. split; [reflexivity|].
        split; [apply prefix_cons, Hpre|].
        intros masks' [= <-]. destruct (Hok masks eq_refl) as [-> Hl].
        simpl. rewrite Hl. split; reflexivity.
      * exists (Raise e), (box :: called). simpl.
        rewrite <- app_assoc. split; [reflexivity|].
        split; [apply prefix_cons, Hpre|]. intros masks' H. discriminate H.
    + exists (Raise e), [box]. split; [reflexivity|].
      split; [apply prefix_cons, prefix_nil|]. intros masks' H. discriminate H.
Qed.

(** X10. What goes wrong before the detector is called never reaches a
    model.  A request without ['image_base64'] is answered with that
    message and status 400, whatever else it holds; a base64 or image
    decoding failure, and a prompt that is not a string, are answered
    with [str(e)] and status 500.  In all four cases the record of model
    calls is returned unchanged. *)
Theorem segment_fails_before_models (data : gmap string Segment.Json)
    (tr : list Segment.Event) :
  (data !! "image_base64" = None ->
   segment data tr = (error_reply "Missing 'image_base64' field" 400, tr)) /\
  (forall image_b64 prompt e,
      data !! "image_base64" = Some image_b64 -> data !! "prompt" = Some prompt ->
      b64decode image_b64 = Raise e ->
      segment data tr = (error_reply (str_exn e) 500, tr)) /\
  (forall image_b64 prompt image_bytes e,
      data !! "image_base64" = Some image_b64 -> data !! "prompt" = Some prompt ->
      b64decode image_b64 = Ok image_bytes -> image_open_rgb image_bytes = Raise e ->
      segment data tr = (error_reply (str_exn e) 500, tr)) /\
  (forall image_b64 prompt image_bytes image,
      data !! "image_base64" = Some image_b64 -> data !! "prompt" = Some prompt ->
      b64decode image_b64 = Ok image_bytes -> image_open_rgb image_bytes = Ok image ->
      (forall s, prompt <> Segment.JStr s) ->
      segment data tr = (error_reply (str_exn AttributeError) 500, tr)).
Proof.
  unfold Segment.segment, Segment.segment_body. repeat split.
  - intros Hi. rewrite Hi. reflexivity.
  - intros image_b64 prompt e Hi Hp Hb. rewrite Hi, Hp.
    unfold mbind, Segment.M_bind, Segment.lift. rewrite Hb. reflexivity.
  - intros image_b64 prompt image_bytes e Hi Hp Hb Himg. rewrite Hi, Hp.
    unfold Segment.segment_objects_internal, mbind, Segment.M_bind, Segment.lift.
    rewrite Hb, Himg. reflexivity.
  - intros image_b64 prompt image_bytes image Hi Hp Hb Himg Hns. rewrite Hi, Hp.
    unfold Segment.segment_objects_internal, mbind, Segment.M_bind, Segment.lift.
    rewrite Hb, Himg.
    destruct prompt as [| | | |s|]; try reflexivity. destruct (Hns s eq_refl).
Qed.

(** X11. Failures inside the models end the pipeline where they happen.
    When the detector raises, the segmenter is never called; when
    [set_image] raises, no [predict] is made.  The reply is [str(e)] with
    status 500 in both cases. *)
Theorem segment_fails_in_models (data : gmap string Segment.Json)
    (tr : list Segment.Event) image_b64 prompt image_bytes image :
  data !! "image_base64" = Some image_b64 ->
  data !! "prompt" = Some (Segment.JStr prompt) ->
  b64decode image_b64 = Ok image_bytes ->
  image_open_rgb image_bytes = Ok image ->
  let threshold := default (Segment.JNum (3 # 10)) (data !! "threshold") in
  let formatted := Segment.format_prompt prompt in
  (forall e,
      grounding_dino image formatted threshold = Raise e ->
      segment data tr
      = (error_reply (str_exn e) 500, tr ++ [Segment.GroundingDino formatted])) /\
  (forall dets e,
      grounding_dino image formatted threshold = Ok dets ->
      sam2_set_image image = Raise e ->
      segment data tr
      = (error_reply (str_exn e) 500,
         tr ++ [Segment.GroundingDino formatted; Segment.Sam2SetImage])).
Proof.
  intros Hi Hp Hb Himg threshold formatted.
  unfold Segment.segment, Segment.segment_body. rewrite Hi, Hp.
  unfold Segment.segment_objects_internal, mbind, Segment.M_bind, Segment.lift,
    Segment.invoke.
  rewrite Hb, Himg. fold formatted. fold threshold. split.
  - intros e Hdet. rewrite Hdet. reflexivity.
  - intros dets e Hdet Hset. rewrite Hdet, Hset. rewrite <- app_assoc. reflexivity.
Qed.

(** X12. The endpoint never lets an exception out and never drops a
    recorded model call: every request gets a reply, and the record of
    calls it returns extends the one it was given. *)
Theorem segment_always_replies (data : gmap string Segment.Json) (tr : list Segment.Event) :
  exists reply calls, segment data tr = (Ok reply, tr ++ calls).
Proof.
  assert (Hwrap : forall (c : Segment.M Segment.Reply),
             (exists r calls, c tr = (r, tr ++ calls)) ->
             exists reply calls,
               (match c tr with
                | (Ok reply, tr') => (Ok reply, tr')
                | (Raise e, tr') =>
                    (Ok (Segment.BodyStatus (Segment.error_body (str_exn e)) 500), tr')
                end) = (Ok reply, tr ++ calls)).
  { intros c (r & calls & ->). destruct r; eauto. }
  unfold Segment.segment. apply Hwrap. unfold Segment.segment_body.
  destruct (data !! "image_base64") as [image_b64|];
    [|exists (Ok (Segment.BodyStatus
                    (Segment.error_body "Missing 'image_base64' field") 400)), [];
      rewrite app_nil_r; reflexivity].
  destruct (data !! "prompt") as [prompt|];
    [|exists (Ok (Segment.BodyStatus (Segment.error_body "Missing 'prompt' field") 400)), [];
      rewrite app_nil_r; reflexivity].
  unfold Segment.segment_objects_internal, mbind, Segment.M_bind, Segment.lift,
    Segment.invoke.
  destruct (b64decode image_b64) as [image_bytes|e];
    [|exists (Raise e), []; rewrite app_nil_r; reflexivity].
  destruct (image_open_rgb image_bytes) as [image|e];
    [|exists (Raise e), []; rewrite app_nil_r; reflexivity].
  destruct prompt as [| | | |s|];
    try (exists (Raise AttributeError), []; rewrite app_nil_r; reflexivity).
  destruct (grounding_dino image (Segment.format_prompt s)
              (default (Segment.JNum (3 # 10)) (data !! "threshold"))) as [dets|e];
    [|eexists (Raise e), [_]; reflexivity].
  destruct (sam2_set_image image) as [p|e];
    [|eexists (Raise e), [_; _]; rewrite <- app_assoc; reflexivity].
  destruct (for_each_predict_extends p (Segment.det_boxes dets)
              ((tr ++ [Segment.GroundingDino (Segment.format_prompt s)])
                 ++ [Segment.Sam2SetImage]))
    as (r & called & Hr & _ & _).
  unfold Segment.invoke in Hr. rewrite Hr. rewrite <- !app_assoc. simpl.
  destruct r as [masks|e]; [|eexists (Raise e), _; reflexivity].
  destruct (List.map Segment.astype_bool masks) as [|m0 ms];
    [eexists (Ok _), _; reflexivity|].
  destruct (Segment.cutout image m0) as [masked|e];
    [|eexists (Raise e), _; reflexivity].
  destruct (visualization image (m0 :: ms) dets) as [vis|e];
    [eexists (Ok _), _; reflexivity|eexists (Raise e), _; reflexivity].
Qed.

End EndpointErrors.

Lemma segment_fails_before_models_witness :
  demo_segment bad_image_request []
  = (Ok (Segment.BodyStatus
           (Segment.error_body "argument should be a bytes-like object or ASCII string")
           500), []).
Proof.
  exact (proj1 (proj2 (segment_fails_before_models (Array2 rgb) demo_b64decode
           (fun b => Ok b) demo_detector unit (fun _ => Ok tt) demo_predict
           (fun _ => "PNG") (fun _ _ _ => Ok "VIS") demo_str_exn bad_image_request []))
           (Segment.JInt 5) (Segment.JStr "cat") _ eq_refl eq_refl eq_refl).
Defined.

Lemma segment_fails_in_models_witness :
  Segment.segment (Array2 rgb) demo_b64decode (fun b => Ok b) failing_detector
                  unit (fun _ => Ok tt) demo_predict
                  (fun _ => "PNG") (fun _ _ _ => Ok "VIS") demo_str_exn cat_request []
  = (Ok (Segment.BodyStatus (Segment.error_body "CUDA out of memory") 500),
     [Segment.GroundingDino "cat."]).
Proof.
  exact (proj1 (segment_fails_in_models (Array2 rgb) demo_b64decode
           (fun b => Ok b) failing_detector unit (fun _ => Ok tt) demo_predict
           (fun _ => "PNG") (fun _ _ _ => Ok "VIS") demo_str_exn cat_request []
           (Segment.JStr "aGk=") "Cat" demo_image demo_image
           eq_refl eq_refl eq_refl eq_refl) _ eq_refl).
Defined.

Section EndpointRuns.

Variable bytes : Type.
Variable b64decode : Segment.Json -> Result bytes.
Variable image_open_rgb : bytes -> Result (Array2 rgb).
Variable grounding_dino : Array2 rgb -> string -> Segment.Json -> Result Segment.Detections.
Variable Predictor : Type.
Variable sam2_set_image : Array2 rgb -> Result Predictor.
Variable sam2_predict : Predictor -> Segment.Box -> Result (Array2 Q).
Variable png_base64 : Array2 rgba -> string.
Variable visualization :
  Array2 rgb -> list (Array2 bool) -> Segment.Detections -> Result string.
Variable str_exn : Exn -> string.

Local Abbreviation segment :=
  (Segment.segment bytes b64decode image_open_rgb grounding_dino Predictor
                   sam2_set_image sam2_predict png_base64 visualization str_exn).

(** X13. With at least one detection the models are called in a fixed
    order: the detector once, [set_image] once, then one [predict] per
    box in the order of the boxes.  When the overlay is drawn the reply
    holds exactly the six keys, with [num_objects] the number of boxes;
    when the overlay fails the reply is [str(e)] with status 500 and the
    cut-out already made is not returned. *)
Theorem segment_with_detections (data : gmap string Segment.Json)
    (tr : list Segment.Event)
    image_b64 prompt image_bytes image dets p m0 ms masked_rgba :
  data !! "image_base64" = Some image_b64 ->
  data !! "prompt" = Some (Segment.JStr prompt) ->
  b64decode image_b64 = Ok image_bytes ->
  image_open_rgb image_bytes = Ok image ->
  grounding_dino image (Segment.format_prompt prompt)
                 (default (Segment.JNum (3 # 10)) (data !! "threshold")) = Ok dets ->
  sam2_set_image image = Ok p ->
  Forall2 (fun box m => sam2_predict p box = Ok m) (Segment.det_boxes dets) (m0 :: ms) ->
  Segment.cutout image (Segment.astype_bool m0) = Ok masked_rgba ->
  let calls := [Segment.GroundingDino (Segment.format_prompt prompt); Segment.Sam2SetImage]
                 ++ List.map Segment.Sam2Predict (Segment.det_boxes dets) in
  match visualization image (List.map Segment.astype_bool (m0 :: ms)) dets with
  | Ok vis =>
      exists d,
        segment data tr = (Ok (Segment.Body d), tr ++ calls) /\
        d !! "num_objects" = Some (Segment.JInt (Z.of_nat (length (Segment.det_boxes dets)))) /\
        d !! "masked_image_base64" = Some (Segment.JStr (png_base64 masked_rgba)) /\
        d !! "visualization_base64" = Some (Segment.JStr vis) /\
        dom d = ({[ "num_objects"; "boxes"; "scores"; "labels";
                    "masked_image_base64"; "visualization_base64" ]} : gset string)
  | Raise e =>
      segment data tr
      = (Ok (Segment.BodyStatus (Segment.error_body (str_exn e)) 500), tr ++ calls)
  end.
Proof.
  intros Hi Hp Hb Himg Hdet Hset Hmasks Hcut calls.
  pose proof (segment_objects_internal_run bytes image_open_rgb grounding_dino Predictor
                sam2_set_image sam2_predict png_base64 visualization
                image_bytes prompt _ true image dets p _ tr
                Himg Hdet Hset Hmasks) as Hrun.
  cbv zeta in Hrun. change (List.map Segment.astype_bool (m0 :: ms))
    with (Segment.astype_bool m0 :: List.map Segment.astype_bool ms) in Hrun.
  cbv iota in Hrun. rewrite Hcut in Hrun.
  change (Segment.astype_bool m0 :: List.map Segment.astype_bool ms)
    with (List.map Segment.astype_bool (m0 :: ms)) in *.
  pose proof (Forall2_length _ _ _ Hmasks) as Hlen.
  assert (Hseg : segment data tr
                 = match Segment.segment_objects_internal bytes image_open_rgb
                           grounding_dino Predictor sam2_set_image sam2_predict
                           png_base64 visualization image_bytes (Segment.JStr prompt)
                           (default (Segment.JNum (3 # 10)) (data !! "threshold")) true tr
                   with
                   | (Ok result, tr') => (Ok (Segment.Body result), tr')
                   | (Raise e, tr') =>
                       (Ok (Segment.BodyStatus (Segment.error_body (str_exn e)) 500), tr')
                   end).
  { unfold Segment.segment, Segment.segment_body. rewrite Hi, Hp.
    unfold mbind, Segment.M_bind, Segment.lift. rewrite Hb.
    destruct (Segment.segment_objects_internal _ _ _ _ _ _ _ _ _ _ _ _ tr) as [[r|e] tr'];
      reflexivity. }
  rewrite Hseg, Hrun.
  destruct (visualization image (List.map Segment.astype_bool (m0 :: ms)) dets) as [vis|e];
    [|reflexivity].
  eexists. split; [reflexivity|].
  split; [rewrite Hlen; reflexivity|]. repeat split; reflexivity.
Qed.

(** X14. The endpoint reads three keys only, and a missing ['threshold']
    stands for 0.3: two requests that agree on ['image_base64'], on
    ['prompt'] and on the threshold after that default get the same reply
    and cause the same model calls, whatever other keys they carry. *)
Theorem segment_reads_three_keys (data1 data2 : gmap string Segment.Json)
    (tr : list Segment.Event) :
  data1 !! "image_base64" = data2 !! "image_base64" ->
  data1 !! "prompt" = data2 !! "prompt" ->
  default (Segment.JNum (3 # 10)) (data1 !! "threshold")
  = default (Segment.JNum (3 # 10)) (data2 !! "threshold") ->
  segment data1 tr = segment data2 tr.
Proof.
  intros Hi Hp Ht. unfold Segment.segment, Segment.segment_body.
  rewrite Hi, Hp, Ht. reflexivity.
Qed.

End EndpointRuns.

Lemma segment_with_detections_witness :
  exists d,
    demo_segment cat_request []
    = (Ok (Segment.Body d),
       [Segment.GroundingDino "cat."; Segment.Sam2SetImage;
        Segment.Sam2Predict (0, 0, 1, 1)%Q; Segment.Sam2Predict (1, 1, 2, 2)%Q]) /\
    d !! "num_objects" = Some (Segment.JInt 2) /\
    d !! "masked_image_base64" = Some (Segment.JStr "PNG") /\
    d !! "visualization_base64" = Some (Segment.JStr "VIS") /\
    dom d = ({[ "num_objects"; "boxes"; "scores"; "labels";
                "masked_image_base64"; "visualization_base64" ]} : gset string).
Proof.
  exact (segment_with_detections (Array2 rgb) demo_b64decode (fun b => Ok b)
           demo_detector unit (fun _ => Ok tt) demo_predict (fun _ => "PNG")
           (fun _ _ _ => Ok "VIS") demo_str_exn cat_request []
           (Segment.JStr "aGk=") "Cat" demo_image demo_image
           {| Segment.det_boxes := [(0, 0, 1, 1)%Q; (1, 1, 2, 2)%Q];
              Segment.det_scores := [(9 # 10)%Q; (8 # 10)%Q];
              Segment.det_labels := ["cat"; "cat"] |}
           tt [[1%Q; 0%Q]; [0%Q; 0%Q]] [[[0%Q; 0%Q]; [0%Q; 1%Q]]]
           [[(10, 20, 30, 255); (0, 0, 0, 0)]; [(0, 0, 0, 0); (0, 0, 0, 0)]]
           eq_refl eq_refl eq_refl eq_refl eq_refl eq_refl
           ltac:(repeat constructor) eq_refl).
Defined.

Lemma segment_reads_three_keys_witness :
  verbose_cat_request <> cat_request /\
  demo_segment verbose_cat_request [] = demo_segment cat_request [].
Proof.
  split.
  - intros E. apply (f_equal (fun d => d !! "debug")) in E. discriminate E.
  - apply (segment_reads_three_keys (Array2 rgb) demo_b64decode (fun b => Ok b)
             demo_detector unit (fun _ => Ok tt) demo_predict (fun _ => "PNG")
             (fun _ _ _ => Ok "VIS") demo_str_exn verbose_cat_request cat_request []);
      reflexivity.
Defined.

(** ** The prompt *)

Lemma list_ascii_of_append (a b : string) :
  list_ascii_of_string (a +:+ b) = list_ascii_of_string a ++ list_ascii_of_string b.
Proof. induction a as [|c a IH]; simpl; [reflexivity|]. rewrite IH. reflexivity. Qed.

Lemma lower_ascii_idempotent (c : ascii) :
  Segment.lower_ascii (Segment.lower_ascii c) = Segment.lower_ascii c.
Proof. destruct c as [[] [] [] [] [] [] [] []]; reflexivity. Qed.

Lemma lower_ascii_dot (c : ascii) :
  (if Ascii.eqb (Segment.lower_ascii c) "." then true else false)
  = (if Ascii.eqb c "." then true else false).
Proof. destruct c as [[] [] [] [] [] [] [] []]; reflexivity. Qed.

Lemma ends_with_dot_eqb (s : string) :
  Segment.ends_with_dot s = Ascii.eqb (List.last (list_ascii_of_string s) "x"%char) ".".
Proof.
  unfold Segment.ends_with_dot.
  destruct (List.last (list_ascii_of_string s) "x"%char) as [[] [] [] [] [] [] [] []];
    reflexivity.
Qed.

Lemma last_map_default {A B} (f : A -> B) (l : list A) (d : A) :
  List.last (List.map f l) (f d) = f (List.last l d).
Proof.
  induction l as [|x l IH]; simpl; [reflexivity|].
  destruct l as [|y l]; simpl in *; [reflexivity|exact IH].
Qed.

Lemma list_ascii_of_lower (s : string) :
  list_ascii_of_string (Segment.lower s)
  = List.map Segment.lower_ascii (list_ascii_of_string s).
Proof. unfold Segment.lower. apply list_ascii_of_string_of_list_ascii. Qed.

Lemma ends_with_dot_lower (s : string) :
  Segment.ends_with_dot (Segment.lower s) = Segment.ends_with_dot s.
Proof.
  rewrite !ends_with_dot_eqb, list_ascii_of_lower.
  change "x"%char with (Segment.lower_ascii "x") at 1.
  rewrite last_map_default.
  pose proof (lower_ascii_dot (List.last (list_ascii_of_string s) "x"%char)) as H.
  destruct (Ascii.eqb (Segment.lower_ascii _) "."), (Ascii.eqb (List.last _ _) ".");
    congruence.
Qed.

Lemma ends_with_dot_append_dot (s : string) :
  Segment.ends_with_dot (s +:+ ".") = true.
Proof.
  rewrite ends_with_dot_eqb, list_ascii_of_append. simpl.
  rewrite List.last_last. reflexivity.
Qed.

Lemma lower_idempotent (s : string) :
  Segment.lower (Segment.lower s) = Segment.lower s.
Proof.
  unfold Segment.lower at 1. rewrite list_ascii_of_lower, List.map_map.
  unfold Segment.lower. f_equal. apply List.map_ext. apply lower_ascii_idempotent.
Qed.

Lemma lower_append_dot (s : string) :
  Segment.lower (s +:+ ".") = (Segment.lower s +:+ ".")%string.
Proof.
  rewrite <- (string_of_list_ascii_of_string (Segment.lower s +:+ ".")).
  rewrite list_ascii_of_append, list_ascii_of_lower.
  unfold Segment.lower. rewrite list_ascii_of_append, List.map_app. reflexivity.
Qed.

(** X15. The text sent to the detector always ends with a dot and is
    lowered; formatting it again changes nothing, and two prompts that
    differ only in the case of their ASCII letters give the same text. *)
Theorem format_prompt_normalises (s s' : string) :
  Segment.ends_with_dot (Segment.format_prompt s) = true /\
  Segment.lower (Segment.format_prompt s) = Segment.format_prompt s /\
  Segment.format_prompt (Segment.format_prompt s) = Segment.format_prompt s /\
  (Segment.lower s = Segment.lower s' ->
   Segment.format_prompt s = Segment.format_prompt s').
Proof.
  assert (Hdot : Segment.ends_with_dot (Segment.format_prompt s) = true).
  { unfold Segment.format_prompt. rewrite ends_with_dot_lower.
    destruct (Segment.ends_with_dot s) eqn:E; [exact E|apply ends_with_dot_append_dot]. }
  assert (Hlow : Segment.lower (Segment.format_prompt s) = Segment.format_prompt s)
    by (unfold Segment.format_prompt; apply lower_idempotent).
  split; [exact Hdot|]. split; [exact Hlow|]. split.
  - unfold Segment.format_prompt at 1. rewrite Hdot. exact Hlow.
  - intros E. unfold Segment.format_prompt.
    rewrite <- (ends_with_dot_lower s), <- (ends_with_dot_lower s'), E.
    destruct (Segment.ends_with_dot (Segment.lower s')); [exact E|].
    rewrite !lower_append_dot, E. reflexivity.
Qed.

Lemma format_prompt_normalises_witness :
  Segment.lower "A Cat" = Segment.lower "a cAT" /\
  Segment.format_prompt "A Cat" = Segment.format_prompt "a cAT" /\
  Segment.format_prompt "A Cat" = "a cat.".
Proof.
  split; [reflexivity|]. split; [|reflexivity].
  apply (format_prompt_normalises "A Cat" "a cAT"). reflexivity.
Defined.

(** ** The cut-out *)

(** X16. The cut-out has the shape of the image; each of its pixels is
    either fully transparent or the image pixel made opaque, according to
    the mask; and a mask of another shape is refused with [IndexError]
    instead of being cropped or padded. *)
Theorem cutout_shape_and_alpha (image : Array2 rgb) (mask : Array2 bool) :
  match Segment.cutout image mask with
  | Ok out =>
      List.map length out = List.map length image /\
      List.map length mask = List.map length image /\
      forall j i px,
        at2 out j i = Some px ->
        exists sel r g b,
          at2 mask j i = Some sel /\ at2 image j i = Some (r, g, b) /\
          px = if sel then (r, g, b, 255) else (0, 0, 0, 0)
  | Raise e => e = IndexError /\ List.map length mask <> List.map length image
  end.
Proof.
  unfold Segment.cutout, Segment.same_shape.
  destruct (bool_decide_reflect (List.map length mask = List.map length image)) as [Hs|Hs];
    [|split; [reflexivity|exact Hs]].
  split; [|split; [exact Hs|]].
  - unfold amap2. apply list_eq. intros j.
    rewrite !list_lookup_fmap, lookup_zip_with.
    assert (Hj : List.map length mask !! j = List.map length image !! j)
      by (rewrite Hs; reflexivity).
    rewrite !list_lookup_fmap in Hj.
    destruct (mask !! j) as [rm|], (image !! j) as [ri|]; simpl in *;
      try discriminate; [|reflexivity].
    injection Hj as Hj. rewrite length_zip_with. f_equal. lia.
  - intros j i px Hpx. rewrite at2_amap2 in Hpx.
    destruct (at2 mask j i) as [sel|]; simpl in Hpx; [|discriminate].
    destruct (at2 image j i) as [[[r g] b]|]; simpl in Hpx; [|discriminate].
    injection Hpx as <-. exists sel, r, g, b. repeat split; reflexivity.
Qed.

(** * The driver [main] and the frame files *)

(** ** Frame numbers in file names *)

Lemma to_int_nonneg (i : Z) :
  0 <= i -> exists d, d <> Decimal.Nil /\ Z.to_int i = Decimal.Pos d.
Proof.
  intros Hi. destruct i as [|p|p]; [| |lia].
  - exists Decimal.zero. split; [discriminate|reflexivity].
  - exists (Pos.to_uint p). split; [apply DecimalPos.Unsigned.to_uint_nonnil|reflexivity].
Qed.

Lemma str_of_int_nonneg (i : Z) :
  0 <= i ->
  exists d, d <> Decimal.Nil /\ Z.to_int i = Decimal.Pos d /\
            str_of_int i = NilEmpty.string_of_uint d.
Proof.
  intros Hi. destruct (to_int_nonneg i Hi) as (d & Hd & E).
  exists d. repeat split; [exact Hd|exact E|].
  unfold str_of_int. rewrite E. simpl. destruct d; [contradiction|reflexivity..].
Qed.

Lemma append_cons (c : ascii) (a b : string) :
  (String c a +:+ b)%string = String c (a +:+ b).
Proof. reflexivity. Qed.

Lemma zeros_then_digits (k : nat) (d : Decimal.uint) :
  (string_of_list_ascii (List.repeat "0"%char k) +:+ NilEmpty.string_of_uint d)%string
  = NilEmpty.string_of_uint (Nat.iter k Decimal.D0 d).
Proof.
  induction k as [|k IH]; [reflexivity|].
  cbn [List.repeat string_of_list_ascii Nat.iter nat_rect NilEmpty.string_of_uint].
  rewrite append_cons, IH. reflexivity.
Qed.

Lemma of_uint_leading_zeros (k : nat) (d : Decimal.uint) :
  Z.of_uint (Nat.iter k Decimal.D0 d) = Z.of_uint d.
Proof. induction k as [|k IH]; simpl; [reflexivity|]. exact IH. Qed.

Lemma iter_D0_nonnil (k : nat) (d : Decimal.uint) :
  d <> Decimal.Nil -> Nat.iter k Decimal.D0 d <> Decimal.Nil.
Proof. intros Hd. destruct k; simpl; [exact Hd|discriminate]. Qed.

Lemma parse_digits (d : Decimal.uint) :
  d <> Decimal.Nil ->
  parse_int (NilEmpty.string_of_uint d) = Some (Z.of_uint d).
Proof.
  intros Hd. unfold parse_int.
  assert (E : NilZero.string_of_int (Decimal.Pos d) = NilEmpty.string_of_uint d)
    by (destruct d; [contradiction|reflexivity..]).
  rewrite <- E, NilZero.isi; [reflexivity|congruence|discriminate].
Qed.

Lemma format_04d (i : Z) :
  0 <= i ->
  format_int "04d" i
  = Ok (repeat_char "0" (4 - Z.of_nat (String.length (str_of_int i))) +:+ str_of_int i)%string.
Proof.
  intros Hi. unfold format_int. simpl.
  destruct (Z.ltb_spec i 0) as [Hn|_]; [lia|].
  rewrite Z.abs_eq by lia. reflexivity.
Qed.

Lemma length_append (a b : string) :
  String.length (a +:+ b) = (String.length a + String.length b)%nat.
Proof. induction a as [|c a IH]; simpl; [reflexivity|]. rewrite IH. reflexivity. Qed.

Lemma length_repeat_char (c : ascii) (n : Z) :
  String.length (repeat_char c n) = Z.to_nat n.
Proof.
  unfold repeat_char. induction (Z.to_nat n) as [|k IH]; simpl; [reflexivity|].
  rewrite IH. reflexivity.
Qed.

Lemma format_04d_parse (n : Z) :
  0 <= n ->
  exists number, format_int "04d" n = Ok number /\ parse_int number = Some n /\
                 (4 <= String.length number)%nat.
Proof.
  intros Hn. rewrite (format_04d n Hn). eexists. split; [reflexivity|].
  destruct (str_of_int_nonneg n Hn) as (d & Hd & Eint & Estr).
  split.
  - rewrite Estr. unfold repeat_char. rewrite zeros_then_digits.
    rewrite parse_digits by (apply iter_D0_nonnil, Hd).
    rewrite of_uint_leading_zeros. f_equal.
    change (Z.of_uint d) with (Z.of_int (Decimal.Pos d)). rewrite <- Eint.
    apply DecimalZ.of_to.
  - rewrite length_append, length_repeat_char. lia.
Qed.

Lemma frame_file_Ok (i : Z) :
  0 <= i -> exists name, Driver.frame_file i = Ok name.
Proof.
  intros Hi. destruct (format_04d_parse i Hi) as (number & Hfmt & _).
  unfold Driver.frame_file. rewrite Hfmt. eexists. reflexivity.
Qed.

Lemma frame_file_inj (i j : Z) :
  0 <= i -> 0 <= j -> Driver.frame_file j = Driver.frame_file i -> j = i.
Proof.
  intros Hi Hj E.
  destruct (format_04d_parse i Hi) as (number & Hfmt & Hp & _).
  destruct (format_04d_parse j Hj) as (number' & Hfmt' & Hp' & _).
  unfold Driver.frame_file in E. rewrite Hfmt, Hfmt' in E.
  unfold mbind, result_bind, mret, result_ret in E. injection E as E.
  assert (En : number' = number).
  { apply (f_equal list_ascii_of_string) in E.
    rewrite !list_ascii_of_append in E.
    apply app_inv_head, app_inv_tail in E.
    rewrite <- (string_of_list_ascii_of_string number'),
            <- (string_of_list_ascii_of_string number), E. reflexivity. }
  rewrite En in Hp'. congruence.
Qed.

(** X17. The number in a frame's file name can be read back: for a frame
    index that is not negative, [{i:04d}] is a text of at least four
    characters that parses to [i], so different frames get different
    file names and none overwrites another. *)
Theorem frame_number_round_trip (i : Z) :
  0 <= i ->
  exists number,
    format_int "04d" i = Ok number /\
    Driver.frame_file i = Ok ("frame_" +:+ number +:+ ".png")%string /\
    parse_int number = Some i /\
    (4 <= String.length number)%nat /\
    (forall j, 0 <= j -> Driver.frame_file j = Driver.frame_file i -> j = i).
Proof.
  intros Hi. destruct (format_04d_parse i Hi) as (number & Hfmt & Hp & Hlen).
  exists number. split; [exact Hfmt|].
  split; [unfold Driver.frame_file; rewrite Hfmt; reflexivity|].
  split; [exact Hp|]. split; [exact Hlen|].
  intros j Hj. apply frame_file_inj; assumption.
Qed.

Lemma frame_number_round_trip_witness :
  exists number,
    format_int "04d" 149 = Ok number /\
    Driver.frame_file 149 = Ok ("frame_" +:+ number +:+ ".png")%string /\
    parse_int number = Some 149 /\
    (4 <= String.length number)%nat /\
    (forall j, 0 <= j -> Driver.frame_file j = Driver.frame_file 149 -> j = 149).
Proof. apply (frame_number_round_trip 149). lia. Defined.

(** ** The frame loop and [main] *)

Lemma for_loop_cons {S A} (body : S -> A -> Result S) (x : A) (xs : list A) (s : S) :
  for_loop body (x :: xs) s = body s x ≫= for_loop body xs.
Proof. reflexivity. Qed.

Lemma elem_of_zrange (n i : Z) : i ∈ Np.zrange n <-> 0 <= i < n.
Proof.
  unfold Np.zrange. rewrite list_elem_of_fmap. split.
  - intros (k & -> & Hk). apply elem_of_seq in Hk. lia.
  - intros Hi. exists (Z.to_nat i). split; [lia|]. apply elem_of_seq. lia.
Qed.

Lemma NoDup_zrange (n : Z) : NoDup (Np.zrange n).
Proof.
  unfold Np.zrange. apply NoDup_fmap_2; [intros a b; lia|apply NoDup_seq].
Qed.

Section DriverProperties.

Variable Font : Type.
Variable text_mask : Font -> string -> string -> list (Z * Z * Z).
Variable ellipse_fill : Z * Z * Z * Z -> list (Z * Z).
Variable ellipse_outline : Z * Z * Z * Z -> list (Z * Z).
Variable np_sin : Q -> Q.
Variable run_encoder : list string -> gmap string (Array2 rgb) -> Driver.RunOutcome.
Variable str_called_process_error : list string -> Z -> string.

Local Abbreviation generate_frame :=
  (Frame.generate_frame Font text_mask ellipse_fill ellipse_outline np_sin).

Local Abbreviation render_one :=
  (Driver.render_one Font text_mask ellipse_fill ellipse_outline np_sin).

Local Abbreviation render_frames :=
  (Driver.render_frames Font text_mask ellipse_fill ellipse_outline np_sin).

Local Abbreviation main :=
  (Driver.main Font text_mask ellipse_fill ellipse_outline np_sin
               run_encoder str_called_process_error).

(** The loop over any list of distinct frame indices. *)
Lemma frame_loop (env : Frame.FontEnv Font) (total w h : Z) (indices : list Z) :
  total <> 0 -> 0 < w -> 0 <= h ->
  (forall i, i ∈ indices -> 0 <= i) -> NoDup indices ->
  forall files out,
  exists files' out',
    for_loop (render_one env total w h) indices (files, out) = Ok (files', out') /\
    (forall i, i ∈ indices ->
       exists name img, Driver.frame_file i = Ok name /\
                        generate_frame env i total w h = Ok img /\
                        files' !! name = Some img) /\
    (forall name, (forall i, i ∈ indices -> Driver.frame_file i <> Ok name) ->
                  files' !! name = files !! name) /\
    (forall name img, files' !! name = Some img ->
       files !! name = Some img \/
       exists i, i ∈ indices /\ Driver.frame_file i = Ok name /\
                 generate_frame env i total w h = Ok img).
Proof.
  intros Ht Hw Hh. induction indices as [|i rest IH]; intros Hpos Hnd files out.
  - exists files, out. split; [reflexivity|]. split; [|split].
    + intros i Hi. apply elem_of_nil in Hi. contradiction.
    + reflexivity.
    + intros name img Hf. left. exact Hf.
  - apply NoDup_cons in Hnd as [Hni Hnd].
    assert (Hi0 : 0 <= i) by (apply Hpos; left).
    destruct (generate_frame_returns Font text_mask ellipse_fill ellipse_outline np_sin
                env i total w h Ht Hw Hh) as (img & Himg & _).
    destruct (frame_file_Ok i Hi0) as [name Hname].
    set (out1 := if ((i + 1) mod 30 =? 0)%Z
                 then out ++ [("  Frame " +:+ str_of_int (i + 1) +:+ "/"
                               +:+ str_of_int total +:+ " done")%string]
                 else out).
    destruct (IH (fun k Hk => Hpos k (list_elem_of_further _ _ _ Hk)) Hnd
                 (<[ name := img ]> files) out1)
      as (files' & out' & Hloop & Hall & Hkeep & Hfrom).
    exists files', out'. split; [|split; [|split]].
    + assert (Hstep : render_one env total w h (files, out) i
                      = Ok (<[ name := img ]> files, out1)).
      { unfold Driver.render_one. rewrite Himg. unfold mbind, result_bind.
        rewrite Hname. reflexivity. }
      rewrite for_loop_cons, Hstep. exact Hloop.
    + intros k Hk. apply elem_of_cons in Hk as [->|Hk]; [|apply Hall, Hk].
      exists name, img. split; [exact Hname|]. split; [exact Himg|].
      rewrite Hkeep; [apply lookup_insert_eq|].
      intros k Hk E. rewrite <- Hname in E.
      apply frame_file_inj in E; [|exact Hi0|apply Hpos; right; exact Hk].
      subst k. contradiction.
    + intros name' Hno. rewrite Hkeep by (intros k Hk; apply Hno; right; exact Hk).
      apply lookup_insert_ne. intros ->. apply (Hno i); [left|exact Hname].
    + intros name' img' Hf. destruct (Hfrom name' img' Hf) as [Hin|(k & Hk & Hkn & Hkg)].
      * destruct (decide (name = name')) as [<-|Hne].
        -- rewrite lookup_insert_eq in Hin. injection Hin as <-.
           right. exists i. split; [left|]. split; assumption.
        -- rewrite lookup_insert_ne in Hin by exact Hne. left. exact Hin.
      * right. exists k. split; [right; exact Hk|]. split; assumption.
Qed.


(** X19. [main] renders the 150 frames of 2048 by 1024 pixels into a new,
    empty [temp_frames], so that afterwards the directory holds exactly
    those frames, whatever it held before.  An encoder that exits, with
    any status, lets [main] return with the frames kept; only an encoder
    that cannot be started makes [main] raise. *)
Theorem main_keeps_the_frames (env : Frame.FontEnv Font) (w : Driver.World) :
  exists files,
    (forall name img,
        files !! name = Some img <->
        exists i, 0 <= i < 150 /\ Driver.frame_file i = Ok name /\
                  generate_frame env i 150 2048 1024 = Ok img) /\
    match run_encoder Driver.cmd files with
    | Driver.Exited status =>
        exists out, main env w
                    = Ok {| Driver.temp_frames := Some files; Driver.stdout := out |}
    | Driver.NotStarted e => main env w = Raise e
    end.
Proof.
  destruct (frame_loop env 150 2048 1024 (Np.zrange 150) ltac:(lia) ltac:(lia) ltac:(lia)
              (fun i Hi => proj1 (proj1 (elem_of_zrange 150 i) Hi)) (NoDup_zrange 150)
              ∅ (Driver.stdout w ++ [("Generating " +:+ str_of_int 150 +:+ " frames...")%string]))
    as (files & out & Hrun & Hall & _ & Hfrom).
  exists files. split.
  - intros name img. split.
    + intros Hf. destruct (Hfrom name img Hf) as [Hin|(i & Hi & Hn & Hg)].
      * rewrite lookup_empty in Hin. discriminate Hin.
      * exists i. split; [apply elem_of_zrange, Hi|]. split; assumption.
    + intros (i & Hi & Hn & Hg).
      destruct (Hall i (proj2 (elem_of_zrange 150 i) Hi)) as (name' & img' & Hn' & Hg' & Hf).
      congruence.
  - assert (Hfresh : Driver.fresh_dir (Driver.temp_frames w) = ∅)
      by (unfold Driver.fresh_dir; destruct (Driver.temp_frames w); reflexivity).
    unfold Driver.main, Driver.render_frames. rewrite Hfresh, Hrun. simpl.
    destruct (run_encoder Driver.cmd files) as [status|e]; [|reflexivity].
    destruct status; eexists; reflexivity.
Qed.

End DriverProperties.


(** * [generate_true_equirectangular] as a whole *)

Section TrueRenderProperties.

Variable Font : Type.
Variable text_mask : Font -> string -> string -> list (Z * Z * Z).
Variable line_pixels : Z * Z -> Z * Z -> Z -> list (Z * Z).

(** X20. [generate_true_equirectangular] never gets to save its image.
    For positive sizes the arrays are built, and then the first label of
    the first pass of the loops is formatted with the specification
    [+ laboratory], which is not a valid format of an int: the call
    raises [ValueError] before anything is drawn or written, whatever the
    fonts and whatever the files already there. *)
Theorem generate_true_equirectangular_raises (env : Frame.FontEnv Font) (width height : Z)
    (files : gmap string (Array2 rgb)) :
  0 < width -> 0 < height ->
  (exists a, TrueEquirect.arrays width height = Ok a) /\
  TrueRender.generate_true_equirectangular Font text_mask line_pixels env width height files
  = Raise ValueError.
Proof.
  intros Hw Hh.
  destruct (True_arrays_total width height) as [a Ha]; [lia|lia|].
  split; [exists a; exact Ha|].
  assert (Hinner : forall font im,
             for_loop (TrueRender.draw_label Font text_mask font width height (-180))
                      (range_step (-60) 90 30) im = Raise ValueError).
  { intros font im.
    change (range_step (-60) 90 30) with (-60 :: range_step (-30) 90 30).
    rewrite for_loop_cons. unfold TrueRender.draw_label.
    change (format_int "+" (-60)) with (Ok "-60"%string : Result string).
    change (format_int "+ laboratory" (-180)) with (Raise ValueError : Result string).
    reflexivity. }
  unfold TrueRender.generate_true_equirectangular. rewrite Ha.
  unfold mbind at 1, result_bind at 1.
  change (range_step (-180) 180 30) with (-180 :: range_step (-150) 180 30).
  rewrite for_loop_cons. cbv beta. rewrite Hinner. reflexivity.
Qed.

End TrueRenderProperties.

Lemma generate_true_equirectangular_raises_witness :
  TrueRender.generate_true_equirectangular Z demo_text_mask demo_line no_fonts 2048 1024 ∅
  = Raise ValueError.
Proof.
  apply (generate_true_equirectangular_raises Z demo_text_mask demo_line no_fonts
           2048 1024 ∅); lia.
Defined.

(** * Grid bands, colours and the moving marker *)







Lemma trunc_near (x : Q) :
  (x - 1 < inject_Z (Np.trunc x))%Q /\ (inject_Z (Np.trunc x) < x + 1)%Q.
Proof.
  rewrite trunc_spec. destruct (Qle_bool 0 x).
  - pose proof (Qfloor_le x). pose proof (Qlt_floor x) as Hf.
    rewrite inject_Z_plus in Hf. change (inject_Z 1) with 1%Q in Hf. split; lra.
  - pose proof (Qfloor_le (- x)). pose proof (Qlt_floor (- x)) as Hf.
    rewrite inject_Z_plus in Hf. change (inject_Z 1) with 1%Q in Hf.
    rewrite inject_Z_opp. split; lra.
Qed.

(** X23. The moving marker stays in view: for a positive width its centre
    column [ball_x] is a column of the image, for every frame number, and
    when the sine lies between -1 and 1 its centre row [ball_y] is less
    than 201 rows away from the middle row [height / 2]. *)
Theorem ball_stays_in_view (np_sin : Q -> Q) (frame_num width height : Z) :
  0 < width ->
  (forall x, (-1 <= np_sin x)%Q /\ (np_sin x <= 1)%Q) ->
  (exists bx, Frame.ball_x frame_num width = Ok bx /\ 0 <= bx < width) /\
  (inject_Z height / 2 - 201 < inject_Z (Frame.ball_y np_sin frame_num height))%Q /\
  (inject_Z (Frame.ball_y np_sin frame_num height) < inject_Z height / 2 + 201)%Q.
Proof.
  intros Hw Hsin. split.
  - unfold Frame.ball_x. destruct (Z.eqb_spec width 0); [lia|].
    eexists. split; [reflexivity|]. apply Z.mod_pos_bound. exact Hw.
  - unfold Frame.ball_y.
    destruct (Hsin (inject_Z frame_num * (2 # 10))%Q) as [S0 S1].
    pose proof (trunc_near (inject_Z height / 2
                            + np_sin (inject_Z frame_num * (2 # 10)) * 200)%Q) as [T0 T1].
    split; lra.
Qed.

Lemma ball_stays_in_view_witness :
  (exists bx, Frame.ball_x 149 2048 = Ok bx /\ 0 <= bx < 2048) /\
  (inject_Z 1024 / 2 - 201 < inject_Z (Frame.ball_y demo_sin 149 1024))%Q /\
  (inject_Z (Frame.ball_y demo_sin 149 1024) < inject_Z 1024 / 2 + 201)%Q.
Proof.
  apply (ball_stays_in_view demo_sin 149 2048 1024); [lia|].
  intros x. split; vm_compute; discriminate.
Defined.
